(** * The event pipeline of knative-eventing-demo, embedded in Rocq

    The development follows the services of the repository:

    - [services/content_validator/app.py]  (module [ContentValidator])
    - [services/data_extractor/app.py]     (module [DataExtractor])
    - [services/database_enricher/app.py]  (module [DatabaseEnricher])
    - [services/message_router/app.py]     (module [MessageRouter])
    - [services/event_monitor/app.py]      (module [EventAnnouncer])

    Modelling conventions.

    - A Python [str] is a [string]; characters are 8-bit [ascii] and the
      character predicates ([isupper], [lower], [\s], [\w] ...) are the
      ones Python has on the ASCII range.
    - A Python float that only ever holds a small integer, or a quotient
      of two lengths, is an exact rational of [Q]; comparisons on them are
      the exact ones.
    - The envelope is a Python dict.  It is a record whose fields are
      [option]s: [None] is an absent key.
    - A Python exception is the [Raise] outcome of the function that
      lets it escape.
    - A [handle_event] is taken from the point where the JSON body of
      the request has been parsed into the envelope; its answer is the
      body and the [Ce-Type] header of the reply.
    - The [queue.Queue] objects of the announcer live in a store indexed
      by object identity; the listeners list holds identities. *)

From Stdlib Require Import String Ascii List ZArith QArith Lia Bool DecimalString.
From stdpp Require Import base gmap list strings.

#[local] Open Scope string_scope.
#[local] Open Scope list_scope.
#[local] Open Scope nat_scope.

(** ** Python string primitives *)

Module PyStr.

Definition code (c : ascii) : N := N_of_ascii c.

(** [lo <= c <= hi], the range [lo-hi] of a character class. *)
Definition range (lo hi c : ascii) : bool :=
  (code lo <=? code c)%N && (code c <=? code hi)%N.

(** [c] is one of the characters of [set]. *)
Fixpoint one_of (set : string) (c : ascii) : bool :=
  match set with
  | EmptyString => false
  | String x set' => Ascii.eqb x c || one_of set' c
  end.

Definition isupper (c : ascii) : bool := range "A" "Z" c.
Definition islower (c : ascii) : bool := range "a" "z" c.
Definition isalpha (c : ascii) : bool := isupper c || islower c.
Definition isdigit (c : ascii) : bool := range "0" "9" c.

(** [str.isspace] on one character: TAB, LF, VT, FF, CR, the four
    separators FS, GS, RS, US, and the space. *)
Definition isspace (c : ascii) : bool :=
  ((9 <=? code c) && (code c <=? 13) || (28 <=? code c) && (code c <=? 32))%N.

(** A word character of [\w] and [\b]. *)
Definition isword (c : ascii) : bool :=
  isalpha c || isdigit c || Ascii.eqb c "_".

Definition lower_char (c : ascii) : ascii :=
  if isupper c then ascii_of_N (code c + 32) else c.

Definition upper_char (c : ascii) : ascii :=
  if islower c then ascii_of_N (code c - 32) else c.

(** [s.lower()] *)
Fixpoint lower (s : string) : string :=
  match s with
  | EmptyString => EmptyString
  | String c s' => String (lower_char c) (lower s')
  end.

(** [s.startswith(p)] *)
Fixpoint startswith (p s : string) : bool :=
  match p, s with
  | EmptyString, _ => true
  | String a p', String b s' => Ascii.eqb a b && startswith p' s'
  | String _ _, EmptyString => false
  end.

(** [sub in s] *)
Fixpoint contains (sub s : string) : bool :=
  startswith sub s ||
  match s with
  | EmptyString => false
  | String _ s' => contains sub s'
  end.

(** [sep.join(l)] *)
Definition join (sep : string) (l : list string) : string :=
  String.concat sep l.

(** [str(n)] for a non-negative integer. *)
Definition str_of_nat (n : nat) : string :=
  NilEmpty.string_of_uint (Nat.to_uint n).

(** [sum(1 for c in s if p(c))] *)
Fixpoint count_chars (p : ascii -> bool) (s : string) : nat :=
  match s with
  | EmptyString => 0
  | String c s' => (if p c then 1 else 0) + count_chars p s'
  end.

Fixpoint lstrip (s : string) : string :=
  match s with
  | EmptyString => EmptyString
  | String c s' => if isspace c then lstrip s' else s
  end.

(** Dropping the trailing white space: the result is empty exactly when
    nothing but white space is left. *)
Fixpoint rstrip (s : string) : string :=
  match s with
  | EmptyString => EmptyString
  | String c s' =>
      match rstrip s' with
      | EmptyString => if isspace c then EmptyString else String c EmptyString
      | r => String c r
      end
  end.

(** [s.strip()] *)
Definition strip (s : string) : string := rstrip (lstrip s).

(** [s.title()]: a cased character is upper-cased when the character
    before it is not cased, and lower-cased otherwise. *)
Fixpoint title_from (prev_cased : bool) (s : string) : string :=
  match s with
  | EmptyString => EmptyString
  | String c s' =>
      if isalpha c
      then String (if prev_cased then lower_char c else upper_char c)
                  (title_from true s')
      else String c (title_from false s')
  end.

Definition title (s : string) : string := title_from false s.

(** [len(s.split())]: the number of maximal runs of non-space
    characters. *)
Fixpoint count_words_from (in_word : bool) (s : string) : nat :=
  match s with
  | EmptyString => 0
  | String c s' =>
      if isspace c then count_words_from false s'
      else (if in_word then 0 else 1) + count_words_from true s'
  end.

Definition count_words (s : string) : nat := count_words_from false s.

(** Truth value of an optional string: [None] and [""] are false. *)
Definition truthy (o : option string) : bool :=
  match o with
  | Some (String _ _) => true
  | _ => false
  end.

End PyStr.

(** ** The fragment of Python's [re] the services use

    A backtracking matcher in continuation-passing style: alternatives
    are tried in order, repetitions are greedy, and the first successful
    path is the match, as in [re]. *)

Module Re.
Import PyStr.

Inductive regex : Type :=
| Eps
| Chr (c : ascii)                                (* a literal character *)
| Cls (p : ascii -> bool)                        (* a class, [\s], [\d], [.] *)
| Seq (r1 r2 : regex)
| Alt (r1 r2 : regex)                            (* [r1|r2] *)
| Rep (lo : nat) (hi : option nat) (r : regex)   (* greedy [r{lo,hi}] *)
| Grp (r : regex)                                (* the capturing group 1 *)
| Bref                                           (* [\1] *)
| Wordb.                                         (* [\b] *)

(** A literal string. *)
Fixpoint Lit (s : string) : regex :=
  match s with
  | EmptyString => Eps
  | String c s' => Seq (Chr c) (Lit s')
  end.

Definition Plus (r : regex) : regex := Rep 1 None r.
Definition Star (r : regex) : regex := Rep 0 None r.
Definition Opt (r : regex) : regex := Rep 0 (Some 1) r.
Definition AtLeast (n : nat) (r : regex) : regex := Rep n None r.
Definition Exactly (n : nat) (r : regex) : regex := Rep n (Some n) r.

(** The matcher's position: the character just before it (for [\b]),
    the text still to read, and the text of group 1 when it is set. *)
Record mstate : Type := MState {
  prev : option ascii;
  rest : string;
  grp : option string
}.

(** The text read between two positions of the same string. *)
Definition consumed (from to : string) : string :=
  String.substring 0 (String.length from - String.length to) from.

Definition advance (st : mstate) (c : ascii) (t : string) : mstate :=
  {| prev := Some c; rest := t; grp := grp st |}.

Definition head_char (s : string) : option ascii :=
  match s with
  | EmptyString => None
  | String c _ => Some c
  end.

Definition isword_opt (o : option ascii) : bool :=
  match o with
  | Some c => isword c
  | None => false
  end.

Section Matcher.

(** [re.IGNORECASE] *)
Variable ignorecase : bool.

Definition chr_matches (c x : ascii) : bool :=
  if ignorecase then Ascii.eqb (lower_char c) (lower_char x)
  else Ascii.eqb c x.

Definition cls_matches (p : ascii -> bool) (x : ascii) : bool :=
  if ignorecase then p x || p (lower_char x) || p (upper_char x)
  else p x.

(** Reading the literal text [lit] at the position. *)
Fixpoint read_text (lit : string) (st : mstate) : option mstate :=
  match lit with
  | EmptyString => Some st
  | String c lit' =>
      match rest st with
      | String x t =>
          if chr_matches c x then read_text lit' (advance st x t) else None
      | EmptyString => None
      end
  end.

(** Greedy repetition of [body], between [lo] and [hi] times.  One more
    round is tried first, and the repetition stops where the rounds
    after it fail.  A round has to read at least one character (every
    repeated sub-pattern of the services does), so the length of the
    text left bounds the number of rounds: [fuel] starts at that
    length. *)
Fixpoint rep_loop (fuel : nat)
    (body : mstate -> (mstate -> option mstate) -> option mstate)
    (lo : nat) (hi : option nat)
    (st : mstate) (k : mstate -> option mstate) : option mstate :=
  let stop := match lo with 0 => k st | S _ => None end in
  match fuel with
  | 0 => stop
  | S fuel' =>
      match hi with
      | Some 0 => stop
      | _ =>
          match body st (fun st' =>
                  if String.length (rest st') <? String.length (rest st)
                  then rep_loop fuel' body (Nat.pred lo)
                         (option_map Nat.pred hi) st' k
                  else None) with
          | Some r => Some r
          | None => stop
          end
      end
  end.

Fixpoint rmatch (r : regex) (st : mstate)
    (k : mstate -> option mstate) : option mstate :=
  match r with
  | Eps => k st
  | Chr c =>
      match rest st with
      | String x t => if chr_matches c x then k (advance st x t) else None
      | EmptyString => None
      end
  | Cls p =>
      match rest st with
      | String x t => if cls_matches p x then k (advance st x t) else None
      | EmptyString => None
      end
  | Seq r1 r2 => rmatch r1 st (fun st' => rmatch r2 st' k)
  | Alt r1 r2 =>
      match rmatch r1 st k with
      | Some res => Some res
      | None => rmatch r2 st k
      end
  | Rep lo hi r' => rep_loop (String.length (rest st)) (rmatch r') lo hi st k
  | Grp r' =>
      rmatch r' st (fun st' =>
        k {| prev := prev st'; rest := rest st';
             grp := Some (consumed (rest st) (rest st')) |})
  | Bref =>
      match grp st with
      | Some g =>
          match read_text g st with
          | Some st' => k st'
          | None => None
          end
      | None => None
      end
  | Wordb =>
      if xorb (isword_opt (prev st)) (isword_opt (head_char (rest st)))
      then k st else None
  end.

(** The match object: [group(0)] and [group(1)]. *)
Record mobj : Type := MObj {
  group0 : string;
  group1 : option string
}.

(** A match of [r] that starts exactly at the position. *)
Definition match_here (r : regex) (before : option ascii) (s : string)
    : option mobj :=
  match rmatch r {| prev := before; rest := s; grp := None |} Some with
  | Some st' => Some {| group0 := consumed s (rest st'); group1 := grp st' |}
  | None => None
  end.

Fixpoint search_from (r : regex) (before : option ascii) (s : string)
    : option mobj :=
  match match_here r before s with
  | Some m => Some m
  | None =>
      match s with
      | EmptyString => None
      | String c t => search_from r (Some c) t
      end
  end.

(** [re.search(r, s)]: the leftmost match. *)
Definition search (r : regex) (s : string) : option mobj :=
  search_from r None s.

(** The scan of [re.findall]: [skip] characters of the last match are
    still to be passed over before the next attempt. *)
Fixpoint findall_from (r : regex) (before : option ascii) (s : string)
    (skip : nat) : list string :=
  match skip, s with
  | S n, String c t => findall_from r (Some c) t n
  | S _, EmptyString => []
  | 0, _ =>
      match match_here r before s with
      | Some m =>
          group0 m ::
          match s with
          | EmptyString => []
          | String c t =>
              findall_from r (Some c) t (String.length (group0 m) - 1)
          end
      | None =>
          match s with
          | EmptyString => []
          | String c t => findall_from r (Some c) t 0
          end
      end
  end.

(** [re.findall(r, s)] for a pattern without capturing groups: the
    non-overlapping matches, left to right. *)
Definition findall (r : regex) (s : string) : list string :=
  findall_from r None s 0.

End Matcher.

End Re.

(** ** Python numbers *)

(** [a > b] on exact rationals. *)
Definition Qgtb (a b : Q) : bool := negb (Qle_bool a b).

(** ** The envelope *)

(** [validation], written by the Validator. *)
Record validation_results : Type := ValidationResults {
  is_valid : bool;
  checks_performed : nat;
  issues_found : list string
}.

(** [extracted_data], written by the Extractor. *)
Record extracted_data_t : Type := ExtractedData {
  email : option string;
  customer_name : option string;
  phone : option string;
  sentiment : string;
  is_urgent : bool;
  content_length : nat;
  word_count : nat
}.

(** The nine keys that [lookup_customer] fills from the row it found. *)
Record customer_profile : Type := CustomerProfile {
  customer_id : Z;
  first_name : string;
  last_name : string;
  company_name : string;
  country : string;
  customer_phone : string;
  account_status : string;
  total_purchases : Q;
  last_purchase_date : option string
}.

(** [customer_data], written by the Enricher: either the dict with the
    nine keys and ["is_known_customer": True], or the one-key dict
    [{"is_known_customer": False}]. *)
Record customer_data_t : Type := CustomerData {
  is_known_customer : bool;
  profile : option customer_profile
}.

(** [routing], written by the Router. *)
Record routing_info : Type := RoutingInfo {
  category : string;
  confidence_score : Q;
  reason : string;
  all_scores : list (string * Q)
}.

(** The message dict.  The keys [timestamp] and [metadata], which no
    stage reads or writes, are left out. *)
Record message : Type := Message {
  message_id : option string;
  content : option string;
  processing_stage : option string;
  errors : option (list string);
  validation : option validation_results;
  extracted_data : option extracted_data_t;
  customer_data : option customer_data_t;
  routing : option routing_info
}.

(** The exceptions that the modelled code can let escape. *)
Inductive exn : Type :=
| KeyError (key : string)          (* [d[key]] on an absent key *)
| IndexError                       (* a list index out of range *)
| ValueError                       (* [list.remove(x)]: x not in list *)
| Full                             (* [queue.Full] *)
| DatabaseError (detail : string). (* raised by [psycopg2] *)

(** [str(e)] *)
Definition str_of_exn (e : exn) : string :=
  match e with
  | KeyError key => "'" +:+ key +:+ "'"
  | IndexError => "list index out of range"
  | ValueError => "list.remove(x): x not in list"
  | Full => ""
  | DatabaseError detail => detail
  end.

(** What a call ends with: a value, or an exception that escapes. *)
Inductive outcome (A : Type) : Type :=
| Ok (a : A)
| Raise (e : exn).

Arguments Ok {A} a.
Arguments Raise {A} e.

(** The answer of a stage's [handle_event]: the body [jsonify(processed)]
    and the [Ce-Type] header. *)
Record reply : Type := Reply {
  body : message;
  ce_type : string
}.

(** [message.get("content", "")] *)
Definition get_content (m : message) : string :=
  match content m with
  | Some c => c
  | None => ""
  end.

(** [len(payload.get("errors", []))] *)
Definition error_count (m : message) : nat :=
  match errors m with
  | Some es => length es
  | None => 0
  end.

(** [message["errors"].append(e)]: a [KeyError] when the key is absent. *)
Definition append_error (m : message) (e : string) : outcome message :=
  match errors m with
  | Some es =>
      Ok {| message_id := message_id m; content := content m;
            processing_stage := processing_stage m;
            errors := Some (es ++ [e]);
            validation := validation m;
            extracted_data := extracted_data m;
            customer_data := customer_data m;
            routing := routing m |}
  | None => Raise (KeyError "errors")
  end.

Definition set_processing_stage (m : message) (s : string) : message :=
  {| message_id := message_id m; content := content m;
     processing_stage := Some s;
     errors := errors m;
     validation := validation m;
     extracted_data := extracted_data m;
     customer_data := customer_data m;
     routing := routing m |}.

Definition set_validation (m : message) (v : validation_results) : message :=
  {| message_id := message_id m; content := content m;
     processing_stage := processing_stage m;
     errors := errors m;
     validation := Some v;
     extracted_data := extracted_data m;
     customer_data := customer_data m;
     routing := routing m |}.

Definition set_extracted_data (m : message) (d : extracted_data_t) : message :=
  {| message_id := message_id m; content := content m;
     processing_stage := processing_stage m;
     errors := errors m;
     validation := validation m;
     extracted_data := Some d;
     customer_data := customer_data m;
     routing := routing m |}.

Definition set_customer_data (m : message) (d : customer_data_t) : message :=
  {| message_id := message_id m; content := content m;
     processing_stage := processing_stage m;
     errors := errors m;
     validation := validation m;
     extracted_data := extracted_data m;
     customer_data := Some d;
     routing := routing m |}.

Definition set_routing (m : message) (r : routing_info) : message :=
  {| message_id := message_id m; content := content m;
     processing_stage := processing_stage m;
     errors := errors m;
     validation := validation m;
     extracted_data := extracted_data m;
     customer_data := customer_data m;
     routing := Some r |}.

(** ** services/event_producer/app.py *)

(** The payload of [create_cloudevent(content)], with the identifier
    the producer drew. *)
Definition create_payload (id content : string) : message :=
  {| message_id := Some id;
     content := Some content;
     processing_stage := Some "received";
     errors := Some [];
     validation := None;
     extracted_data := None;
     customer_data := None;
     routing := None |}.

(** ** services/content_validator/app.py *)

Module ContentValidator.
Import PyStr Re.

Definition SPAM_KEYWORDS : list string :=
  [ "viagra"; "cialis"; "lottery"; "winner"; "congratulations";
    "click here"; "free money"; "nigerian prince"; "inheritance";
    "crypto"; "bitcoin wallet"; "investment opportunity" ].

Definition PROFANITY_LIST : list string :=
  [ "spam"; "scam"; "hack"; "phishing"; "malware"; "virus" ].

Definition check_spam_keywords (text : string) : list string :=
  let text_lower := lower text in
  List.filter (fun word => contains word text_lower) SPAM_KEYWORDS.

Definition check_profanity (text : string) : list string :=
  let text_lower := lower text in
  List.filter (fun word => contains word text_lower) PROFANITY_LIST.

Definition check_length (text : string) : list string :=
  (if String.length text <? 10
   then ["Message too short (minimum 10 characters)"] else []) ++
  (if (10000 <? N.of_nat (String.length text))%N
   then ["Message too long (maximum 10,000 characters)"] else []).

(** [sum(1 for c in text if c.isupper()) / len(text)], for a non-empty
    text. *)
Definition caps_ratio (text : string) : Q :=
  Z.of_nat (count_chars isupper text) # Pos.of_nat (String.length text).

Definition check_excessive_caps (text : string) : option string :=
  if 20 <? String.length text then
    if Qgtb (caps_ratio text) (1 # 2)
    then Some "Excessive capitalization detected (>50%)"
    else None
  else None.

(** [http[s]?://(?:[a-zA-Z]|[0-9]|[$-_@.&+]|[!*\\(\\),]|(?:%[0-9a-fA-F][0-9a-fA-F]))+] *)
Definition url_pattern : regex :=
  Seq (Lit "http") (Seq (Opt (Cls (one_of "s"))) (Seq (Lit "://")
    (Plus
      (Alt (Cls (fun c => range "a" "z" c || range "A" "Z" c))
      (Alt (Cls (range "0" "9"))
      (Alt (Cls (fun c => range "$" "_" c || one_of "@.&+" c))
      (Alt (Cls (one_of "!*\(\),"))
           (Seq (Chr "%")
             (Seq (Cls (fun c => range "0" "9" c || range "a" "f" c
                                 || range "A" "F" c))
                  (Cls (fun c => range "0" "9" c || range "a" "f" c
                                 || range "A" "F" c))))))))))).

Definition check_urls (text : string) : option string :=
  let urls := findall false url_pattern text in
  if 3 <? length urls
  then Some ("Too many URLs detected (" +:+ str_of_nat (length urls) +:+ ")")
  else None.

(** [(.)\1{4,}]; the dot is any character but the newline. *)
Definition repeat_pattern : regex :=
  Seq (Grp (Cls (fun c => negb (Ascii.eqb c "010")))) (AtLeast 4 Bref).

Definition check_repeated_characters (text : string) : option string :=
  match search false repeat_pattern text with
  | Some _ => Some "Excessive character repetition detected"
  | None => None
  end.

(** The state of the local [validation_results] dict after one check:
    the counter goes up, and a failing check clears [is_valid] and adds
    its messages. *)
Definition record_check (v : validation_results) (failed : bool)
    (messages : list string) : validation_results :=
  let v1 := {| is_valid := is_valid v;
               checks_performed := checks_performed v + 1;
               issues_found := issues_found v |} in
  if failed
  then {| is_valid := false;
          checks_performed := checks_performed v1;
          issues_found := issues_found v1 ++ messages |}
  else v1.

Definition nonempty {A : Type} (l : list A) : bool :=
  match l with
  | [] => false
  | _ :: _ => true
  end.

Definition option_to_list {A : Type} (o : option A) : list A :=
  match o with
  | Some a => [a]
  | None => []
  end.

(** The six checks of [validate], in the order of the source. *)
Definition run_checks (content : string) : validation_results :=
  let v0 := {| is_valid := true; checks_performed := 0; issues_found := [] |} in
  let spam := check_spam_keywords content in
  let v1 := record_check v0 (nonempty spam)
              ["Spam keywords: " +:+ join ", " spam] in
  let profanity := check_profanity content in
  let v2 := record_check v1 (nonempty profanity)
              ["Profanity: " +:+ join ", " profanity] in
  let length_issues := check_length content in
  let v3 := record_check v2 (nonempty length_issues) length_issues in
  let caps_issue := check_excessive_caps content in
  let v4 := record_check v3 (truthy caps_issue) (option_to_list caps_issue) in
  let url_issue := check_urls content in
  let v5 := record_check v4 (truthy url_issue) (option_to_list url_issue) in
  let repeat_issue := check_repeated_characters content in
  record_check v5 (truthy repeat_issue) (option_to_list repeat_issue).

(** [for issue in issues: message["errors"].append(f"validation:{issue}")] *)
Fixpoint append_issues (m : message) (issues : list string) : outcome message :=
  match issues with
  | [] => Ok m
  | issue :: issues' =>
      match append_error m ("validation:" +:+ issue) with
      | Ok m' => append_issues m' issues'
      | Raise e => Raise e
      end
  end.

Definition validate (m : message) : outcome message :=
  let content := get_content m in
  let validation_results := run_checks content in
  let m1 := set_validation m validation_results in
  let m2 := set_processing_stage m1 "validated" in
  if is_valid validation_results then Ok m2
  else append_issues m2 (issues_found validation_results).

Definition handle_event (incoming_payload : message) : outcome reply :=
  let original_error_count := error_count incoming_payload in
  match validate incoming_payload with
  | Raise e => Raise e
  | Ok processed =>
      let current_error_count := error_count processed in
      let event_type :=
        if original_error_count <? current_error_count
        then "com.learning.message.validation-failed"
        else "com.learning.message.validated" in
      Ok {| body := processed; ce_type := event_type |}
  end.

End ContentValidator.

(** ** services/data_extractor/app.py *)

Module DataExtractor.
Import PyStr Re.

(** [\b[A-Za-z0-9._%+-]+@[A-Za-z0-9.-]+\.[A-Z|a-z]{2,}\b] *)
Definition email_pattern : regex :=
  Seq Wordb
 (Seq (Plus (Cls (fun c => range "A" "Z" c || range "a" "z" c
                           || range "0" "9" c || one_of "._%+-" c)))
 (Seq (Chr "@")
 (Seq (Plus (Cls (fun c => range "A" "Z" c || range "a" "z" c
                           || range "0" "9" c || one_of ".-" c)))
 (Seq (Chr ".")
 (Seq (AtLeast 2 (Cls (fun c => range "A" "Z" c || one_of "|" c
                                || range "a" "z" c)))
      Wordb))))).

Definition extract_email (text : string) : option string :=
  match search false email_pattern text with
  | Some m => Some (group0 m)
  | None => None
  end.

(** [[A-Z][a-z]+] *)
Definition capitalized_word : regex :=
  Seq (Cls (range "A" "Z")) (Plus (Cls (range "a" "z"))).

(** [(?:my name is|i am|this is)\s+([A-Z][a-z]+(?:\s+[A-Z][a-z]+)+)] *)
Definition name_pattern_intro : regex :=
  Seq (Alt (Lit "my name is") (Alt (Lit "i am") (Lit "this is")))
 (Seq (Plus (Cls isspace))
      (Grp (Seq capitalized_word
                (Plus (Seq (Plus (Cls isspace)) capitalized_word))))).

(** [([A-Z][a-z]+\s+[A-Z][a-z]+)] *)
Definition name_pattern_bare : regex :=
  Grp (Seq capitalized_word (Seq (Plus (Cls isspace)) capitalized_word)).

(** The loop [for pattern in patterns] of [extract_name]; both searches
    are made with [re.IGNORECASE]. *)
Fixpoint first_name_match (patterns : list regex) (text : string)
    : option string :=
  match patterns with
  | [] => None
  | pattern :: patterns' =>
      match search true pattern text with
      | Some m =>
          match group1 m with
          | Some g => Some (title (strip g))
          | None => None
          end
      | None => first_name_match patterns' text
      end
  end.

Definition extract_name (text : string) : option string :=
  first_name_match [name_pattern_intro; name_pattern_bare] text.

(** [\b\d{3}[-.]?\d{3}[-.]?\d{4}\b] *)
Definition phone_pattern_plain : regex :=
  Seq Wordb
 (Seq (Exactly 3 (Cls isdigit))
 (Seq (Opt (Cls (one_of "-.")))
 (Seq (Exactly 3 (Cls isdigit))
 (Seq (Opt (Cls (one_of "-.")))
 (Seq (Exactly 4 (Cls isdigit))
      Wordb))))).

(** [\(\d{3}\)\s*\d{3}[-.]?\d{4}] *)
Definition phone_pattern_parens : regex :=
  Seq (Chr "(")
 (Seq (Exactly 3 (Cls isdigit))
 (Seq (Chr ")")
 (Seq (Star (Cls isspace))
 (Seq (Exactly 3 (Cls isdigit))
 (Seq (Opt (Cls (one_of "-.")))
      (Exactly 4 (Cls isdigit))))))).

Fixpoint first_phone_match (patterns : list regex) (text : string)
    : option string :=
  match patterns with
  | [] => None
  | pattern :: patterns' =>
      match search false pattern text with
      | Some m => Some (group0 m)
      | None => first_phone_match patterns' text
      end
  end.

Definition extract_phone (text : string) : option string :=
  first_phone_match [phone_pattern_plain; phone_pattern_parens] text.

Definition urgent_keywords : list string :=
  [ "urgent"; "asap"; "emergency"; "immediately";
    "critical"; "help"; "please help"; "stuck" ].

Definition detect_urgency (text : string) : bool :=
  let text_lower := lower text in
  existsb (fun keyword => contains keyword text_lower) urgent_keywords.

Definition positive_words : list string :=
  [ "happy"; "great"; "excellent"; "thank"; "pleased"; "love"; "wonderful" ].

Definition negative_words : list string :=
  [ "frustrated"; "angry"; "disappointed"; "terrible"; "worst"; "hate";
    "awful" ].

Definition detect_sentiment (text : string) : string :=
  let text_lower := lower text in
  let pos_count :=
    length (List.filter (fun word => contains word text_lower) positive_words) in
  let neg_count :=
    length (List.filter (fun word => contains word text_lower) negative_words) in
  if pos_count <? neg_count then "negative"
  else if neg_count <? pos_count then "positive"
  else "neutral".

Definition process (m : message) : message :=
  let content := get_content m in
  let extracted :=
    {| email := extract_email content;
       customer_name := extract_name content;
       phone := extract_phone content;
       sentiment := detect_sentiment content;
       is_urgent := detect_urgency content;
       content_length := String.length content;
       word_count := count_words content |} in
  set_processing_stage (set_extracted_data m extracted) "extracted".

(** [extracted.get("email")] on [processed.get("extracted_data", {})] *)
Definition get_email (m : message) : option string :=
  match extracted_data m with
  | Some d => email d
  | None => None
  end.

Definition handle_event (incoming_payload : message) : outcome reply :=
  let processed := process incoming_payload in
  if truthy (get_email processed)
  then Ok {| body := processed; ce_type := "com.learning.message.extracted" |}
  else
    match append_error processed "No email address found" with
    | Ok processed' =>
        Ok {| body := processed';
              ce_type := "com.learning.message.extraction-incomplete" |}
    | Raise e => Raise e
    end.

End DataExtractor.

(** ** services/database_enricher/app.py *)

Module DatabaseEnricher.
Import PyStr.

(** A row of the [SELECT] of [lookup_customer], column by column; a
    [NULL] amount or date is [None], and a date is given by its ISO
    text. *)
Record customer_row : Type := CustomerRow {
  col_customer_id : Z;
  col_first_name : string;
  col_last_name : string;
  col_company_name : string;
  col_country : string;
  col_phone : string;
  col_account_status : string;
  col_total_purchases : option Q;
  col_last_purchase_date : option string
}.

(** What the query of [lookup_customer] meets in the database: the first
    row for the address, no row, or a fault of the connection or of the
    query, with the text of the exception. *)
Inductive query_result : Type :=
| Row (result : customer_row)
| NoRow
| Fault (detail : string).

Section WithDatabase.

(** The [customers] table behind [psycopg2], keyed by email. *)
Variable database : string -> query_result.

(** [lookup_customer]: the dict of a known customer, [None], or the
    exception re-raised by its [except] clause. *)
Definition lookup_customer (email : string) : outcome (option customer_data_t) :=
  match database email with
  | Row result =>
      Ok (Some
        {| is_known_customer := true;
           profile := Some
             {| customer_id := col_customer_id result;
                first_name := col_first_name result;
                last_name := col_last_name result;
                company_name := col_company_name result;
                country := col_country result;
                customer_phone := col_phone result;
                account_status := col_account_status result;
                total_purchases :=
                  match col_total_purchases result with
                  | Some amount => amount
                  | None => 0%Q
                  end;
                last_purchase_date := col_last_purchase_date result |} |})
  | NoRow => Ok None
  | Fault detail => Raise (DatabaseError detail)
  end.

Definition unknown_customer : customer_data_t :=
  {| is_known_customer := false; profile := None |}.

(** The [try] block of [enrich]: the message as the block leaves it,
    and the exception when it is left by one. *)
Definition enrich_try (m : message) (email : string) : message * option exn :=
  match lookup_customer email with
  | Raise e => (m, Some e)
  | Ok (Some customer_data) => (set_customer_data m customer_data, None)
  | Ok None =>
      let m1 := set_customer_data m unknown_customer in
      match append_error m1 ("enrichment:customer-not-found:" +:+ email) with
      | Ok m2 => (m2, None)
      | Raise e => (m1, Some e)
      end
  end.

Definition enrich (m : message) : outcome message :=
  let email :=
    match extracted_data m with
    | Some d => email d
    | None => None
    end in
  if negb (truthy email) then
    match append_error m "enrichment:no-email" with
    | Ok m1 => Ok (set_customer_data m1 unknown_customer)
    | Raise e => Raise e
    end
  else
    let email := default "" email in
    let '(m1, raised) := enrich_try m email in
    match raised with
    | None => Ok (set_processing_stage m1 "enriched")
    | Some e =>
        (* [except Exception as e] *)
        match append_error m1 ("enrichment:database-error:" +:+ str_of_exn e) with
        | Ok m2 =>
            Ok (set_processing_stage (set_customer_data m2 unknown_customer)
                  "enriched")
        | Raise e' => Raise e'
        end
    end.

(** [customer_data.get("is_known_customer")] on
    [processed.get("customer_data", {})] *)
Definition get_is_known_customer (m : message) : bool :=
  match customer_data m with
  | Some d => is_known_customer d
  | None => false
  end.

Definition handle_event (incoming_payload : message) : outcome reply :=
  let original_error_count := error_count incoming_payload in
  match enrich incoming_payload with
  | Raise e => Raise e
  | Ok processed =>
      let current_error_count := error_count processed in
      let event_type :=
        if original_error_count <? current_error_count
        then "com.learning.message.enrichment-failed"
        else if get_is_known_customer processed
        then "com.learning.message.enriched"
        else "com.learning.message.unknown-customer" in
      Ok {| body := processed; ce_type := event_type |}
  end.

End WithDatabase.

End DatabaseEnricher.

(** ** services/message_router/app.py *)

Module MessageRouter.
Import PyStr.

(** One value of [routing_rules]. *)
Record rule : Type := Rule {
  keywords : list string;
  weight : Q
}.

(** One value of the dict [calculate_route_scores] returns. *)
Record score_data : Type := ScoreData {
  score : Q;
  matches : nat
}.

(** [self.routing_rules]; a dict keeps its keys in insertion order. *)
Definition routing_rules : list (string * rule) :=
  [ ("finance",
     {| keywords :=
          [ "billing"; "invoice"; "payment"; "refund"; "charge";
            "subscription"; "price"; "cost"; "fee"; "credit card";
            "bank"; "transaction"; "receipt"; "balance"; "overcharged" ];
        weight := 1 |});
    ("support",
     {| keywords :=
          [ "help"; "issue"; "problem"; "error"; "bug"; "broken";
            "not working"; "troubleshoot"; "fix"; "support";
            "assistance"; "technical"; "crash"; "freeze" ];
        weight := 1 |});
    ("website",
     {| keywords :=
          [ "login"; "password"; "access"; "account"; "sign in";
            "reset"; "locked out"; "username"; "authentication";
            "forgot password"; "cannot log in"; "registration" ];
        weight := 1 |}) ].

(** [sum(1 for keyword in keywords if keyword in text_lower)] *)
Definition count_matches (keywords : list string) (text_lower : string) : nat :=
  length (List.filter (fun keyword => contains keyword text_lower) keywords).

Definition score_rules (rules : list (string * rule)) (text : string)
    : list (string * score_data) :=
  let text_lower := lower text in
  List.map (fun entry =>
         let category := fst entry in
         let config := snd entry in
         let matches := count_matches (keywords config) text_lower in
         (category,
          {| score := inject_Z (Z.of_nat matches) * weight config;
             matches := matches |}))
      rules.

Definition calculate_route_scores (text : string) : list (string * score_data) :=
  score_rules routing_rules text.

(** One round of the loop of [determine_route] on the pair
    [(max_score, best_category)]. *)
Definition better (best : Q * string) (entry : string * score_data)
    : Q * string :=
  if Qgtb (score (snd entry)) (fst best)
  then (score (snd entry), fst entry)
  else best.

(** [scores[category]] *)
Fixpoint lookup_score (scores : list (string * score_data)) (category : string)
    : option score_data :=
  match scores with
  | [] => None
  | (c, d) :: scores' =>
      if String.eqb c category then Some d else lookup_score scores' category
  end.

Definition determine_route (scores : list (string * score_data))
    : outcome (string * Q * string) :=
  let '(max_score, best_category) :=
    fold_left better scores (0%Q, "unknown") in
  if Qeq_bool max_score 0 then Ok ("unknown", 0%Q, "No keywords matched")
  else
    match lookup_score scores best_category with
    | Some d =>
        Ok (best_category, max_score,
            "Matched " +:+ str_of_nat (matches d) +:+ " keywords")
    | None => Raise (KeyError best_category)
    end.

Definition route (m : message) : outcome message :=
  let content := get_content m in
  let scores := calculate_route_scores content in
  match determine_route scores with
  | Raise e => Raise e
  | Ok (category, confidence, reason) =>
      let routing_info :=
        {| category := category;
           confidence_score := confidence;
           reason := reason;
           all_scores :=
             List.map (fun entry => (fst entry, score (snd entry))) scores |} in
      Ok (set_processing_stage (set_routing m routing_info) "routed")
  end.

(** [routing.get("category", "unknown")] on [processed.get("routing", {})] *)
Definition get_category (m : message) : string :=
  match routing m with
  | Some r => category r
  | None => "unknown"
  end.

(** The [if]/[elif] chain of [handle_event] on the category. *)
Definition event_type_of_category (category : string) : string :=
  if String.eqb category "finance" then "com.learning.message.routed.finance"
  else if String.eqb category "support" then "com.learning.message.routed.support"
  else if String.eqb category "website" then "com.learning.message.routed.website"
  else "com.learning.message.routed.unknown".

Definition handle_event (incoming_payload : message) : outcome reply :=
  match route incoming_payload with
  | Raise e => Raise e
  | Ok processed =>
      let category := get_category processed in
      Ok {| body := processed; ce_type := event_type_of_category category |}
  end.

End MessageRouter.

(** ** The four stages, side by side *)

Inductive stage : Type := Validator | Extractor | Enricher | Router.

(** The [handle_event] of a stage's service. *)
Definition handle (database : string -> DatabaseEnricher.query_result)
    (s : stage) (m : message) : outcome reply :=
  match s with
  | Validator => ContentValidator.handle_event m
  | Extractor => DataExtractor.handle_event m
  | Enricher => DatabaseEnricher.handle_event database m
  | Router => MessageRouter.handle_event m
  end.

(** The two event types of a stage that decides by the error count:
    the one for a failed or incomplete pass, and the one for success.
    The Router has an event type per category instead. *)
Definition delta_labels (s : stage) : option (string * string) :=
  match s with
  | Validator =>
      Some ("com.learning.message.validation-failed",
            "com.learning.message.validated")
  | Extractor =>
      Some ("com.learning.message.extraction-incomplete",
            "com.learning.message.extracted")
  | Enricher =>
      Some ("com.learning.message.enrichment-failed",
            "com.learning.message.enriched")
  | Router => None
  end.

(** ** services/event_monitor/app.py: the announcer *)

Module EventAnnouncer.

(** [collections.deque(maxlen=200)] and [queue.Queue(maxsize=20)] *)
Definition HISTORY_MAXLEN : nat := 200.
Definition QUEUE_MAXSIZE : nat := 20.

(** The announcer object and the queue objects it refers to.  A queue is
    known by its identity, a number; [queues] gives the items waiting in
    each queue that was created, oldest first. *)
Record state : Type := State {
  listeners : list nat;
  history : list string;
  queues : gmap nat (list string)
}.

(** [EventAnnouncer.__init__] *)
Definition init : state :=
  {| listeners := []; history := []; queues := ∅ |}.

(** [d.append(x)] on a [deque] with [maxlen]: the item goes to the right
    end, and the leftmost item is dropped when the bound is exceeded. *)
Definition deque_append (maxlen : nat) (d : list string) (x : string)
    : list string :=
  let d' := d ++ [x] in
  if maxlen <? length d' then tail d' else d'.

(** The items waiting in the queue [q]. *)
Definition contents (qs : gmap nat (list string)) (q : nat) : list string :=
  default [] (qs !! q).

Definition is_full (qs : gmap nat (list string)) (q : nat) : bool :=
  QUEUE_MAXSIZE <=? length (contents qs q).

(** [q.put_nowait(msg)] *)
Definition put_nowait (qs : gmap nat (list string)) (q : nat) (msg : string)
    : outcome (gmap nat (list string)) :=
  if is_full qs q then Raise Full
  else Ok (<[q := contents qs q ++ [msg]]> qs).

(** The body of the loop of [announce] at index [i]. *)
Definition announce_at (msg : string) (s : state) (i : nat) : outcome state :=
  match listeners s !! i with
  | None => Raise IndexError
  | Some q =>
      match put_nowait (queues s) q msg with
      | Ok qs' =>
          Ok {| listeners := listeners s; history := history s; queues := qs' |}
      | Raise Full =>
          (* [del self.listeners[i]] *)
          Ok {| listeners := delete i (listeners s); history := history s;
                queues := queues s |}
      | Raise e => Raise e
      end
  end.

(** [for i in reversed(range(n))]: the indices [n-1], ..., [0]. *)
Fixpoint announce_loop (msg : string) (n : nat) (s : state) : outcome state :=
  match n with
  | 0 => Ok s
  | S i =>
      match announce_at msg s i with
      | Ok s' => announce_loop msg i s'
      | Raise e => Raise e
      end
  end.

Definition announce (s : state) (msg : string) : outcome state :=
  let s1 := {| listeners := listeners s;
               history := deque_append HISTORY_MAXLEN (history s) msg;
               queues := queues s |} in
  announce_loop msg (length (listeners s1)) s1.

(** [announce] called on each item of [msgs] in turn. *)
Fixpoint announce_all (s : state) (msgs : list string) : outcome state :=
  match msgs with
  | [] => Ok s
  | msg :: msgs' =>
      match announce s msg with
      | Ok s' => announce_all s' msgs'
      | Raise e => Raise e
      end
  end.

(** Where the generator [listen()] is suspended: not started yet, inside
    the [for] loop with the items of the snapshot [list(self.history)]
    still to yield, inside [while True] with its queue, or finished. *)
Inductive generator : Type :=
| Created
| Replaying (pending : list string)
| Listening (q : nat)
| Finished.

(** What [next(gen)] gives: an item, nothing yet ([q.get()] waits on an
    empty queue), or the end of the generator. *)
Inductive signal : Type :=
| Yield (msg : string)
| Waiting
| StopIteration.

(** [msg = q.get(); yield msg] *)
Definition get_and_yield (s : state) (q : nat) : state * generator * signal :=
  match contents (queues s) q with
  | msg :: waiting =>
      ({| listeners := listeners s; history := history s;
          queues := <[q := waiting]> (queues s) |},
       Listening q, Yield msg)
  | [] => (s, Listening q, Waiting)
  end.

(** [q = queue.Queue(maxsize=20); self.listeners.append(q)], with [q]
    the identity of the new queue. *)
Definition register (s : state) (q : nat) : state :=
  {| listeners := listeners s ++ [q]; history := history s;
     queues := <[q := []]> (queues s) |}.

(** The identity of a queue object created now: one no queue has. *)
Definition new_queue (s : state) : nat := fresh (dom (queues s)).

(** The [for] loop over the snapshot, and what follows it. *)
Definition replay (s : state) (pending : list string)
    : state * generator * signal :=
  match pending with
  | msg :: pending' => (s, Replaying pending', Yield msg)
  | [] =>
      let q := new_queue s in
      get_and_yield (register s q) q
  end.

(** [next(gen)] for [gen = announcer.listen()] *)
Definition next (s : state) (g : generator) : state * generator * signal :=
  match g with
  | Created => replay s (history s)
  | Replaying pending => replay s pending
  | Listening q => get_and_yield s q
  | Finished => (s, Finished, StopIteration)
  end.

(** [n] calls of [next], with what they gave. *)
Fixpoint run_next (n : nat) (s : state) (g : generator)
    : state * generator * list signal :=
  match n with
  | 0 => (s, g, [])
  | S n' =>
      let '(s1, g1, out) := next s g in
      let '(s2, g2, outs) := run_next n' s1 g1 in
      (s2, g2, out :: outs)
  end.

(** [l.remove(x)]: the first occurrence goes. *)
Fixpoint list_remove (x : nat) (l : list nat) : option (list nat) :=
  match l with
  | [] => None
  | y :: l' =>
      if Nat.eqb x y then Some l'
      else match list_remove x l' with
           | Some r => Some (y :: r)
           | None => None
           end
  end.

(** [gen.close()]: inside [while True] the [finally] clause runs
    [self.listeners.remove(q)]. *)
Definition close (s : state) (g : generator) : outcome state :=
  match g with
  | Listening q =>
      match list_remove q (listeners s) with
      | Some l =>
          Ok {| listeners := l; history := history s; queues := queues s |}
      | None => Raise ValueError
      end
  | _ => Ok s
  end.

(** The states the code keeps to: no queue is registered twice, every
    registered queue was created, and the history is within its bound. *)
Definition wf (s : state) : Prop :=
  NoDup (listeners s) /\
  (forall q, q ∈ listeners s -> q ∈ dom (queues s)) /\
  length (history s) <= HISTORY_MAXLEN.

(** The listeners that [announce] keeps: those whose queue has room. *)
Definition has_room (qs : gmap nat (list string)) (q : nat) : Prop :=
  is_full qs q = false.

#[export] Instance has_room_dec qs q : Decision (has_room qs q).
Proof. unfold has_room. apply _. Defined.

End EventAnnouncer.

(** ** The vocabulary of the properties *)

(** The share of capitals as C7 words it: among the letters of the text,
    more than half are upper-case. *)
Definition upper_share_of_letters_exceeds_half (text : string) : Prop :=
  PyStr.count_chars PyStr.isalpha text < 2 * PyStr.count_chars PyStr.isupper text.

(** [keyword] occurs in [text] when the case of letters is ignored: some
    stretch of [text] and [keyword] are the same once lower-cased. *)
Definition occurs_ignoring_case (keyword text : string) : Prop :=
  exists pre mid post,
    text = pre +:+ (mid +:+ post) /\ PyStr.lower mid = PyStr.lower keyword.

(** Where the loop of [determine_route] stands after the entries [seen]:
    nothing above zero yet, or the first entry of the highest score. *)
Definition loop_state (seen : list (string * MessageRouter.score_data))
    (best : Q * string) : Prop :=
  (best = (0%Q, "unknown") /\
   Forall (fun e => (MessageRouter.score (snd e) <= 0)%Q) seen) \/
  (exists before d after,
     seen = before ++ (snd best, d) :: after /\
     fst best = MessageRouter.score d /\ (0 < MessageRouter.score d)%Q /\
     Forall (fun e => (MessageRouter.score (snd e) < MessageRouter.score d)%Q)
            before /\
     Forall (fun e => (MessageRouter.score (snd e) <= MessageRouter.score d)%Q)
            after).

(** A body of a repetition that reaches an answer only through its
    continuation. *)
Definition through_continuation
    (body : Re.mstate -> (Re.mstate -> option Re.mstate) -> option Re.mstate)
    : Prop :=
  forall st k1 k2, (forall st', k1 st' = k2 st') -> body st k1 = body st k2.

(** An announcer with two listeners: the queue of the first is full, the
    queue of the second holds one item. *)
Definition two_listeners : EventAnnouncer.state :=
  {| EventAnnouncer.listeners := [0; 1];
     EventAnnouncer.history := ["e0"];
     EventAnnouncer.queues := <[0 := replicate 20 "e0"]> (<[1 := ["e0"]]> ∅) |}.

(** ** services/event_monitor/app.py: the handler *)

Module EventMonitor.
Import PyStr.

(** The [if]/[elif] chain of [handle_event] on the event type: the
    stage shown on the dashboard. *)
Definition stage_of_event_type (event_type : string) : string :=
  if contains "received" event_type then "received"
  else if contains "extracted" event_type then "extracted"
  else if contains "validated" event_type || contains "validation" event_type
  then "validated"
  else if contains "enriched" event_type then "enriched"
  else if contains "routed" event_type then "routed"
  else if contains "failed" event_type || contains "error" event_type
  then "failed"
  else "unknown".

(** [request.headers.get('Ce-Type', 'unknown')], then the chain. *)
Definition stage_of_header (ce_type_header : option string) : string :=
  stage_of_event_type (default "unknown" ce_type_header).

End EventMonitor.

(** ** More vocabulary *)

(** The texts a pattern can read, whatever surrounds them: [\b] reads
    nothing, and [\1] is left open. *)
Inductive lang (ignorecase : bool) : Re.regex -> string -> Prop :=
| lang_eps : lang ignorecase Re.Eps ""
| lang_chr c x :
    Re.chr_matches ignorecase c x = true ->
    lang ignorecase (Re.Chr c) (String x "")
| lang_cls p x :
    Re.cls_matches ignorecase p x = true ->
    lang ignorecase (Re.Cls p) (String x "")
| lang_seq r1 r2 w1 w2 :
    lang ignorecase r1 w1 -> lang ignorecase r2 w2 ->
    lang ignorecase (Re.Seq r1 r2) (w1 +:+ w2)
| lang_alt_l r1 r2 w :
    lang ignorecase r1 w -> lang ignorecase (Re.Alt r1 r2) w
| lang_alt_r r1 r2 w :
    lang ignorecase r2 w -> lang ignorecase (Re.Alt r1 r2) w
| lang_rep_stop hi r : lang ignorecase (Re.Rep 0 hi r) ""
| lang_rep_more lo hi r w1 w2 :
    hi <> Some 0 ->
    lang ignorecase r w1 ->
    lang ignorecase (Re.Rep (Nat.pred lo) (option_map Nat.pred hi) r) w2 ->
    lang ignorecase (Re.Rep lo hi r) (w1 +:+ w2)
| lang_grp r w : lang ignorecase r w -> lang ignorecase (Re.Grp r) w
| lang_bref w : lang ignorecase Re.Bref w
| lang_wordb : lang ignorecase Re.Wordb "".

(** Every character of [s] satisfies [p]. *)
Fixpoint all_chars (p : ascii -> bool) (s : string) : bool :=
  match s with
  | EmptyString => true
  | String c s' => p c && all_chars p s'
  end.

(** [c] repeated [n] times. *)
Fixpoint repeat_char (c : ascii) (n : nat) : string :=
  match n with
  | 0 => EmptyString
  | S n' => String c (repeat_char c n')
  end.

(** What can happen to an announcer: an item is announced, a generator
    of [listen] is advanced, a generator is closed. *)
Inductive action : Type :=
| Announce (msg : string)
| Next (g : EventAnnouncer.generator)
| Close (g : EventAnnouncer.generator).

Definition perform (s : EventAnnouncer.state) (a : action)
    : outcome EventAnnouncer.state :=
  match a with
  | Announce msg => EventAnnouncer.announce s msg
  | Next g => Ok (EventAnnouncer.next s g).1.1
  | Close g => EventAnnouncer.close s g
  end.

(** The actions in turn, as far as none raises; an action that raises
    leaves the announcer as it found it. *)
Fixpoint perform_all (s : EventAnnouncer.state) (actions : list action)
    : EventAnnouncer.state :=
  match actions with
  | [] => s
  | a :: actions' =>
      match perform s a with
      | Ok s' => perform_all s' actions'
      | Raise _ => perform_all s actions'
      end
  end.

(** No queue holds more than [QUEUE_MAXSIZE] items. *)
Definition bounded (s : EventAnnouncer.state) : Prop :=
  forall q,
    length (EventAnnouncer.contents (EventAnnouncer.queues s) q)
    <= EventAnnouncer.QUEUE_MAXSIZE.

(** * Properties *)

(** ** The matcher *)

Section MatcherFacts.
Import Re.

Variable ignorecase : bool.

Lemma rep_loop_ext fuel body :
  through_continuation body ->
  forall lo hi st k1 k2,
    (forall st', k1 st' = k2 st') ->
    rep_loop fuel body lo hi st k1 = rep_loop fuel body lo hi st k2.
Proof.
  intros Hbody. induction fuel as [|fuel IH]; intros lo hi st k1 k2 Hk; simpl.
  - now rewrite Hk.
  - rewrite (Hbody st _
      (fun st' =>
         if String.length (rest st') <? String.length (rest st)
         then rep_loop fuel body (Nat.pred lo) (option_map Nat.pred hi) st' k2
         else None)).
    + rewrite Hk. reflexivity.
    + intros st'. destruct (_ <? _); [|reflexivity]. now apply IH.
Qed.

Lemma rmatch_ext (r : regex) :
  through_continuation (rmatch ignorecase r).
Proof.
  unfold through_continuation.
  induction r; intros st k1 k2 Hk; simpl; try (now rewrite ?Hk).
  - destruct (rest st); [reflexivity|]. now rewrite Hk.
  - destruct (rest st); [reflexivity|]. now rewrite Hk.
  - apply IHr1. intros st'. now apply IHr2.
  - rewrite (IHr1 st k1 k2 Hk), (IHr2 st k1 k2 Hk). reflexivity.
  - apply rep_loop_ext; [exact IHr | exact Hk].
  - apply IHr. intros st'. apply Hk.
  - destruct (grp st); [|reflexivity].
    destruct (read_text _ _ _); [apply Hk | reflexivity].
Qed.

Lemma rep_loop_none fuel body :
  through_continuation body ->
  (forall st, body st (fun _ => None) = None) ->
  forall lo hi st, rep_loop fuel body lo hi st (fun _ => None) = None.
Proof.
  intros Hext Hnone.
  induction fuel as [|fuel IH]; intros lo hi st; simpl.
  - now destruct lo.
  - rewrite (Hext st _ (fun _ => None)).
    + rewrite Hnone. destruct hi as [[|h]|], lo; reflexivity.
    + intros st'. destruct (_ <? _); [apply IH | reflexivity].
Qed.

(** Without a continuation that accepts, there is no match. *)
Lemma rmatch_none (r : regex) :
  forall st, rmatch ignorecase r st (fun _ => None) = None.
Proof.
  induction r; intros st; simpl; try reflexivity.
  - destruct (rest st); [reflexivity|]. now destruct (chr_matches _ _ _).
  - destruct (rest st); [reflexivity|]. now destruct (cls_matches _ _ _).
  - rewrite (rmatch_ext r1 st _ (fun _ => None)); [apply IHr1|].
    intros st'. apply IHr2.
  - now rewrite IHr1, IHr2.
  - apply rep_loop_none; [apply rmatch_ext | exact IHr].
  - apply IHr.
  - destruct (grp st); [|reflexivity]. now destruct (read_text _ _ _).
  - now destruct (xorb _ _).
Qed.

(** The fuel of a repetition is enough: more of it changes nothing. *)
Lemma rep_loop_fuel (r : regex) (k : mstate -> option mstate) :
  forall fuel lo hi st,
    String.length (rest st) <= fuel ->
    rep_loop fuel (rmatch ignorecase r) lo hi st k =
    rep_loop (String.length (rest st)) (rmatch ignorecase r) lo hi st k.
Proof.
  induction fuel as [fuel IH] using lt_wf_ind. intros lo hi st Hlen.
  destruct fuel as [|fuel].
  - replace (String.length (rest st)) with 0 by lia. reflexivity.
  - destruct (String.length (rest st)) as [|n] eqn:Hn.
    + cbn [rep_loop]. rewrite Hn.
      rewrite (rmatch_ext r st _ (fun _ => None)) by reflexivity.
      rewrite rmatch_none. now destruct hi as [[|h]|].
    + cbn [rep_loop]. rewrite Hn.
      rewrite (rmatch_ext r st _
        (fun st' =>
           if String.length (rest st') <? S n
           then rep_loop n (rmatch ignorecase r) (Nat.pred lo)
                  (option_map Nat.pred hi) st' k
           else None)); [reflexivity|].
      intros st'. destruct (String.length (rest st') <? S n) eqn:E;
        [|reflexivity].
      apply Nat.ltb_lt in E.
      rewrite (IH fuel) by lia. rewrite (IH n) by lia. reflexivity.
Qed.

End MatcherFacts.

(** ** The envelope's accessors *)

Lemma append_error_list (m : message) (es : list string) (e : string) :
  errors m = Some es ->
  exists m', append_error m e = Ok m' /\ errors m' = Some (es ++ [e]) /\
             validation m' = validation m /\
             extracted_data m' = extracted_data m /\
             customer_data m' = customer_data m /\
             routing m' = routing m.
Proof.
  intros H. unfold append_error. rewrite H. eexists. split; [reflexivity|].
  simpl. repeat split.
Qed.

Lemma append_error_absent (m : message) (e : string) :
  errors m = None -> append_error m e = Raise (KeyError "errors").
Proof. intros H. unfold append_error. now rewrite H. Qed.

Lemma error_count_list (m : message) (es : list string) :
  errors m = Some es -> error_count m = length es.
Proof. intros H. unfold error_count. now rewrite H. Qed.

(** ** The Validator *)

Section ValidatorFacts.
Import PyStr ContentValidator.

Lemma append_issues_list (issues : list string) :
  forall (m : message) (es : list string),
    errors m = Some es ->
    exists m', append_issues m issues = Ok m' /\
               errors m' = Some (es ++ List.map (String.append "validation:") issues) /\
               validation m' = validation m.
Proof.
  induction issues as [|issue issues IH]; intros m es Hes; simpl.
  - exists m. rewrite app_nil_r. auto.
  - destruct (append_error_list m es ("validation:" +:+ issue) Hes)
      as (m1 & -> & Hes1 & Hv1 & _).
    destruct (IH m1 _ Hes1) as (m2 & -> & Hes2 & Hv2).
    exists m2. split; [reflexivity|]. split.
    + rewrite Hes2, <- app_assoc. reflexivity.
    + congruence.
Qed.

Lemma append_issues_absent (issues : list string) (m : message) :
  errors m = None -> issues <> [] ->
  exists e, append_issues m issues = Raise e.
Proof.
  intros Hm Hi. destruct issues as [|issue issues]; [congruence|].
  simpl. rewrite (append_error_absent _ _ Hm). eauto.
Qed.

Lemma record_check_performed v failed messages :
  checks_performed (record_check v failed messages) = checks_performed v + 1.
Proof. unfold record_check. now destruct failed. Qed.

Lemma record_check_issues v failed messages :
  issues_found (record_check v failed messages) =
  issues_found v ++ (if failed then messages else []).
Proof.
  unfold record_check. destruct failed; simpl; [reflexivity|].
  now rewrite app_nil_r.
Qed.

Lemma record_check_valid v failed messages :
  is_valid (record_check v failed messages) = is_valid v && negb failed.
Proof.
  unfold record_check. destruct failed; simpl.
  - now rewrite andb_false_r.
  - now rewrite andb_true_r.
Qed.

Lemma nonempty_false {A : Type} (l : list A) : nonempty l = false <-> l = [].
Proof. destruct l; simpl; split; congruence. Qed.

Lemma truthy_caps text :
  truthy (check_excessive_caps text) = false <-> check_excessive_caps text = None.
Proof.
  unfold check_excessive_caps.
  destruct (20 <? String.length text); [|tauto].
  destruct (Qgtb _ _); simpl; split; congruence.
Qed.

Lemma truthy_urls text :
  truthy (check_urls text) = false <-> check_urls text = None.
Proof.
  unfold check_urls. destruct (3 <? _); simpl; split; congruence.
Qed.

Lemma truthy_repeated text :
  truthy (check_repeated_characters text) = false <->
  check_repeated_characters text = None.
Proof.
  unfold check_repeated_characters.
  destruct (Re.search _ _ _); simpl; split; congruence.
Qed.

Lemma run_checks_performed content : checks_performed (run_checks content) = 6.
Proof.
  unfold run_checks. now rewrite !record_check_performed.
Qed.

Lemma run_checks_issues content :
  issues_found (run_checks content) =
    (if nonempty (check_spam_keywords content)
     then ["Spam keywords: " +:+ join ", " (check_spam_keywords content)]
     else []) ++
    (if nonempty (check_profanity content)
     then ["Profanity: " +:+ join ", " (check_profanity content)]
     else []) ++
    check_length content ++
    option_to_list (check_excessive_caps content) ++
    option_to_list (check_urls content) ++
    option_to_list (check_repeated_characters content).
Proof.
  unfold run_checks. rewrite !record_check_issues. simpl.
  rewrite <- !app_assoc. f_equal. f_equal. f_equal.
  { destruct (check_length content); reflexivity. }
  f_equal.
  { destruct (check_excessive_caps content) as [s|] eqn:E; [|reflexivity].
    unfold check_excessive_caps in E.
    destruct (20 <? _); [|discriminate]. destruct (Qgtb _ _); [|discriminate].
    now inversion E. }
  f_equal.
  { destruct (check_urls content) as [s|] eqn:E; [|reflexivity].
    unfold check_urls in E. destruct (3 <? _); [|discriminate].
    now inversion E. }
  destruct (check_repeated_characters content) as [s|] eqn:E; [|reflexivity].
  unfold check_repeated_characters in E.
  destruct (Re.search _ _ _); [|discriminate]. now inversion E.
Qed.

Lemma run_checks_valid content :
  is_valid (run_checks content) = true <->
    check_spam_keywords content = [] /\
    check_profanity content = [] /\
    check_length content = [] /\
    check_excessive_caps content = None /\
    check_urls content = None /\
    check_repeated_characters content = None.
Proof.
  unfold run_checks. rewrite !record_check_valid. simpl.
  rewrite !andb_true_iff, !negb_true_iff, !nonempty_false,
    truthy_caps, truthy_urls, truthy_repeated.
  tauto.
Qed.

Lemma run_checks_valid_issues content :
  is_valid (run_checks content) = true <-> issues_found (run_checks content) = [].
Proof.
  rewrite run_checks_valid, run_checks_issues. split.
  - intros (-> & -> & -> & -> & -> & ->). reflexivity.
  - intros H.
    destruct (check_spam_keywords content); [|discriminate].
    destruct (check_profanity content); [|discriminate].
    destruct (check_length content); [|discriminate].
    destruct (check_excessive_caps content); [discriminate|].
    destruct (check_urls content); [discriminate|].
    destruct (check_repeated_characters content); [discriminate|].
    repeat split.
Qed.

End ValidatorFacts.

Section ValidatorClaims.
Import PyStr ContentValidator.

(** C6.  On an envelope with content [text] and a list of errors,
    [validate] returns; the [validation] it stores counts 6 checks; its
    issues are the messages of the failing checks, all of them, in the
    order spam keywords, profanity, length bounds, capitalization, URL
    count, character repetition; [is_valid] holds exactly when none of
    the six checks failed; and each issue is recorded in [errors]. *)
Theorem validate_runs_all_six_checks (m : message) (text : string)
    (es : list string) :
  content m = Some text ->
  errors m = Some es ->
  exists m' v,
    validate m = Ok m' /\
    validation m' = Some v /\
    checks_performed v = 6 /\
    issues_found v =
      (if nonempty (check_spam_keywords text)
       then ["Spam keywords: " +:+ join ", " (check_spam_keywords text)]
       else []) ++
      (if nonempty (check_profanity text)
       then ["Profanity: " +:+ join ", " (check_profanity text)]
       else []) ++
      check_length text ++
      option_to_list (check_excessive_caps text) ++
      option_to_list (check_urls text) ++
      option_to_list (check_repeated_characters text) /\
    (is_valid v = true <->
       check_spam_keywords text = [] /\
       check_profanity text = [] /\
       check_length text = [] /\
       check_excessive_caps text = None /\
       check_urls text = None /\
       check_repeated_characters text = None) /\
    errors m' = Some (es ++ List.map (String.append "validation:") (issues_found v)).
Proof.
  intros Hc He. unfold validate, get_content. rewrite Hc.
  destruct (is_valid (run_checks text)) eqn:Hv.
  - eexists. exists (run_checks text). split; [reflexivity|].
    split; [reflexivity|].
    split; [apply run_checks_performed|].
    split; [apply run_checks_issues|].
    split; [rewrite <- run_checks_valid; tauto|].
    simpl. apply run_checks_valid_issues in Hv. rewrite Hv. simpl.
    now rewrite app_nil_r.
  - edestruct (append_issues_list (issues_found (run_checks text))
                 (set_processing_stage (set_validation m (run_checks text))
                    "validated") es He) as (m' & Hm' & Hes' & Hval').
    exists m', (run_checks text). split; [exact Hm'|].
    split; [rewrite Hval'; reflexivity|].
    split; [apply run_checks_performed|].
    split; [apply run_checks_issues|].
    split; [rewrite <- run_checks_valid; rewrite Hv; tauto|].
    exact Hes'.
Qed.

Lemma validate_runs_all_six_checks_witness :
  exists m' v,
    validate {| message_id := Some "m-1"; content := Some "WIN the lottery!";
                processing_stage := Some "received"; errors := Some [];
                validation := None; extracted_data := None;
                customer_data := None; routing := None |} = Ok m' /\
    validation m' = Some v /\
    checks_performed v = 6 /\
    issues_found v = ["Spam keywords: lottery"] /\
    errors m' = Some ["validation:Spam keywords: lottery"].
Proof.
  destruct (validate_runs_all_six_checks
              {| message_id := Some "m-1"; content := Some "WIN the lottery!";
                 processing_stage := Some "received"; errors := Some [];
                 validation := None; extracted_data := None;
                 customer_data := None; routing := None |}
              "WIN the lottery!" [] eq_refl eq_refl)
    as (m' & v & H1 & H2 & H3 & H4 & _ & H6).
  exists m', v. split; [exact H1|]. split; [exact H2|]. split; [exact H3|].
  split; [exact H4|]. rewrite H6, H4. reflexivity.
Defined.

(** C7 as stated fails: a text of twenty-five characters, every letter
    of it upper-case, for which "flagged if and only if more than half of
    the letters are upper-case" is false. *)
Lemma caps_among_letters_counterexample :
  20 < String.length "HELLO WORLD 1234567890 !!" /\
  ~ (check_excessive_caps "HELLO WORLD 1234567890 !!" =
       Some "Excessive capitalization detected (>50%)" <->
     upper_share_of_letters_exceeds_half "HELLO WORLD 1234567890 !!").
Proof.
  split; [vm_compute; lia|]. intros [_ H].
  assert (Hshare : upper_share_of_letters_exceeds_half
                     "HELLO WORLD 1234567890 !!") by (vm_compute; lia).
  apply H in Hshare. vm_compute in Hshare. discriminate.
Qed.

Lemma caps_ratio_exceeds_half (text : string) :
  0 < String.length text ->
  Qgtb (caps_ratio text) (1 # 2) = true <->
  String.length text < 2 * count_chars isupper text.
Proof.
  intros Hlen. unfold Qgtb, caps_ratio.
  rewrite negb_true_iff, <- not_true_iff_false, Qle_bool_iff.
  unfold Qle. cbn [Qnum Qden].
  replace (Z.pos (Pos.of_nat (String.length text)))
    with (Z.of_nat (String.length text))
    by (destruct (String.length text) as [|n] eqn:E;
        [lia | rewrite <- Pos.of_nat_succ; lia]).
  lia.
Qed.

(** C7, amended.  The capitalization issue is raised exactly when the
    text is longer than 20 characters and its upper-case characters are
    more than half of all its characters; in particular a text of 20
    characters or less never raises it. *)
Theorem check_excessive_caps_iff (text : string) :
  check_excessive_caps text = Some "Excessive capitalization detected (>50%)" <->
  20 < String.length text /\
  String.length text < 2 * count_chars isupper text.
Proof.
  unfold check_excessive_caps.
  destruct (20 <? String.length text) eqn:Hlen.
  - apply Nat.ltb_lt in Hlen.
    destruct (Qgtb (caps_ratio text) (1 # 2)) eqn:Hq.
    + apply caps_ratio_exceeds_half in Hq; [|lia]. tauto.
    + split; [discriminate|]. intros [_ H].
      apply caps_ratio_exceeds_half in H; [|lia]. congruence.
  - apply Nat.ltb_ge in Hlen. split; [discriminate|]. lia.
Qed.

End ValidatorClaims.

(** ** The Router *)

Section RouterFacts.
Import PyStr MessageRouter.

Lemma Qgtb_true (a b : Q) : Qgtb a b = true <-> (b < a)%Q.
Proof.
  unfold Qgtb. rewrite negb_true_iff, <- not_true_iff_false, Qle_bool_iff.
  split; [apply Qnot_le_lt | apply Qlt_not_le].
Qed.

Lemma Qgtb_false (a b : Q) : Qgtb a b = false <-> (a <= b)%Q.
Proof.
  unfold Qgtb. rewrite negb_false_iff. apply Qle_bool_iff.
Qed.

Lemma loop_state_step seen best entry :
  loop_state seen best -> loop_state (seen ++ [entry]) (better best entry).
Proof.
  intros Hst. unfold better.
  destruct (Qgtb (score (snd entry)) (fst best)) eqn:Hgt.
  - apply Qgtb_true in Hgt. right.
    exists seen, (snd entry), []. simpl.
    destruct entry as [c d]. simpl in *.
    split; [reflexivity|]. split; [reflexivity|].
    destruct Hst as [[-> Hall] | (before & d0 & after & -> & Hb & Hpos & Hlt & Hle)].
    + simpl in Hgt. split; [exact Hgt|]. split; [|constructor].
      eapply List.Forall_impl; [|exact Hall]. intros e He. simpl in He.
      eapply Qle_lt_trans; eauto.
    + rewrite Hb in Hgt. split; [eapply Qlt_trans; eauto|].
      split; [|constructor].
      apply Forall_app. split.
      * eapply List.Forall_impl; [|exact Hlt]. intros e He. simpl in He.
        eapply Qlt_trans; eauto.
      * constructor; [exact Hgt|].
        eapply List.Forall_impl; [|exact Hle]. intros e He. simpl in He.
        eapply Qle_lt_trans; eauto.
  - apply Qgtb_false in Hgt.
    destruct Hst as [[-> Hall] | (before & d0 & after & -> & Hb & Hpos & Hlt & Hle)].
    + left. split; [reflexivity|]. apply Forall_app. split; [exact Hall|].
      constructor; [exact Hgt | constructor].
    + right. exists before, d0, (after ++ [entry]).
      rewrite <- app_assoc. simpl.
      split; [reflexivity|]. split; [exact Hb|]. split; [exact Hpos|].
      split; [exact Hlt|]. apply Forall_app. split; [exact Hle|].
      constructor; [|constructor]. now rewrite <- Hb.
Qed.

Lemma loop_state_fold todo :
  forall seen best,
    loop_state seen best ->
    loop_state (seen ++ todo) (fold_left better todo best).
Proof.
  induction todo as [|entry todo IH]; intros seen best Hst; simpl.
  - now rewrite app_nil_r.
  - replace (seen ++ entry :: todo) with ((seen ++ [entry]) ++ todo)
      by (rewrite <- app_assoc; reflexivity).
    apply IH, loop_state_step, Hst.
Qed.

Lemma lookup_score_first before c d after :
  ~ In c (List.map fst before) ->
  lookup_score (before ++ (c, d) :: after) c = Some d.
Proof.
  induction before as [|[c0 d0] before IH]; simpl; intros Hnot.
  - now rewrite String.eqb_refl.
  - destruct (String.eqb c0 c) eqn:E.
    + apply String.eqb_eq in E. tauto.
    + apply IH. tauto.
Qed.

(** The selection of [determine_route] on any table of scores whose
    categories are distinct. *)
Lemma determine_route_selects (scores : list (string * score_data)) :
  List.NoDup (List.map fst scores) ->
  (Forall (fun e => (score (snd e) <= 0)%Q) scores /\
   determine_route scores = Ok ("unknown", 0%Q, "No keywords matched")) \/
  (exists before c d after,
     scores = before ++ (c, d) :: after /\
     (0 < score d)%Q /\
     Forall (fun e => (score (snd e) < score d)%Q) before /\
     Forall (fun e => (score (snd e) <= score d)%Q) after /\
     determine_route scores =
       Ok (c, score d, "Matched " +:+ str_of_nat (matches d) +:+ " keywords")).
Proof.
  intros Hnd. unfold determine_route.
  pose proof (loop_state_fold scores [] (0%Q, "unknown")) as Hst.
  simpl in Hst.
  destruct (fold_left better scores (0%Q, "unknown")) as [max_score best].
  destruct Hst as [[Heq Hall] | (before & d & after & Hs & Hb & Hpos & Hlt & Hle)].
  - left; split; [reflexivity | constructor].
  - inversion Heq; subst. left. split; [exact Hall | reflexivity].
  - right. simpl in Hs, Hb. subst max_score.
    exists before, best, d, after.
    split; [exact Hs|]. split; [exact Hpos|]. split; [exact Hlt|].
    split; [exact Hle|].
    destruct (Qeq_bool (score d) 0) eqn:Hz.
    + apply Qeq_bool_iff in Hz. rewrite Hz in Hpos.
      now apply Qlt_irrefl in Hpos.
    + rewrite Hs, lookup_score_first; [reflexivity|].
      rewrite Hs, map_app in Hnd. simpl in Hnd.
      apply List.NoDup_remove_2 in Hnd.
      intros Hin. apply Hnd, in_or_app. now left.
Qed.

End RouterFacts.

(** ** Substrings, with and without case *)

Section SubstringFacts.
Import PyStr.

#[local] Arguments append !s1 s2 : simpl nomatch.

Lemma append_assoc (a b c : string) : (a +:+ b) +:+ c = a +:+ (b +:+ c).
Proof. induction a as [|x a IH]; simpl; [reflexivity | now rewrite IH]. Qed.

Lemma startswith_iff (p s : string) :
  startswith p s = true <-> exists post, s = p +:+ post.
Proof.
  revert s. induction p as [|a p IH]; intros s; simpl.
  - split; [intros _; now exists s | reflexivity].
  - destruct s as [|b s].
    + split; [discriminate | intros [post H]; discriminate].
    + rewrite andb_true_iff, Ascii.eqb_eq, IH. split.
      * intros [-> [post ->]]. now exists post.
      * intros [post H]. inversion H; subst. split; [reflexivity|].
        now exists post.
Qed.

Lemma contains_iff (sub s : string) :
  contains sub s = true <-> exists pre post, s = pre +:+ (sub +:+ post).
Proof.
  induction s as [|c s IH].
  - simpl. rewrite orb_false_r, startswith_iff. split.
    + intros [post H]. now exists "", post.
    + intros (pre & post & H). destruct pre; [now exists post | discriminate].
  - cbn [contains]. rewrite orb_true_iff, startswith_iff, IH. split.
    + intros [[post H] | (pre & post & H)].
      * now exists "", post.
      * exists (String c pre), post. simpl. now rewrite H.
    + intros (pre & post & H). destruct pre as [|x pre].
      * left. now exists post.
      * right. simpl in H. inversion H. now exists pre, post.
Qed.

Lemma lower_append (a b : string) : lower (a +:+ b) = lower a +:+ lower b.
Proof. induction a as [|x a IH]; simpl; [reflexivity | now rewrite IH]. Qed.

Lemma lower_split (s a b : string) :
  lower s = a +:+ b ->
  exists a' b', s = a' +:+ b' /\ lower a' = a /\ lower b' = b.
Proof.
  revert s. induction a as [|x a IH]; intros s H.
  - exists "", s. auto.
  - destruct s as [|c s]; [discriminate|]. simpl in H. inversion H; subst.
    destruct (IH s H2) as (a' & b' & -> & Ha & Hb).
    exists (String c a'), b'. simpl. rewrite Ha. auto.
Qed.

End SubstringFacts.

Section RouterClaims.
Import PyStr MessageRouter.

(** The test [keyword in text_lower] of the source is the occurrence of
    [keyword] ignoring case, for a keyword written in lower case. *)
Lemma contains_lower_iff (keyword text : string) :
  lower keyword = keyword ->
  contains keyword (lower text) = true <-> occurs_ignoring_case keyword text.
Proof.
  intros Hk. rewrite contains_iff. unfold occurs_ignoring_case. split.
  - intros (pre' & post' & H).
    apply lower_split in H as (pre & rest & -> & <- & Hrest).
    apply lower_split in Hrest as (mid & post & -> & Hmid & <-).
    exists pre, mid, post. split; [reflexivity | congruence].
  - intros (pre & mid & post & -> & Hmid).
    exists (lower pre), (lower post).
    rewrite !lower_append. congruence.
Qed.

Lemma routing_rules_keywords :
  Forall (fun entry =>
            List.NoDup (keywords (snd entry)) /\
            Forall (fun k => lower k = k) (keywords (snd entry)))
         routing_rules.
Proof.
  unfold routing_rules.
  repeat (apply List.Forall_cons; [simpl; split|]); try apply List.Forall_nil.
  all: try (apply NoDup_ListNoDup, (bool_decide_unpack _); vm_compute;
            reflexivity).
  all: repeat (apply List.Forall_cons; [reflexivity|]); apply List.Forall_nil.
Qed.

(** The keywords counted by [count_matches] are the distinct keywords
    that occur in the text ignoring case. *)
Lemma count_matches_distinct (kws : list string) (text : string) :
  List.NoDup kws ->
  Forall (fun k => lower k = k) kws ->
  exists hits,
    List.NoDup hits /\
    (forall k, In k hits <-> In k kws /\ occurs_ignoring_case k text) /\
    count_matches kws (lower text) = length hits.
Proof.
  intros Hnd Hlow.
  exists (List.filter (fun keyword => contains keyword (lower text)) kws).
  split; [now apply List.NoDup_filter|]. split; [|reflexivity].
  intros k. rewrite List.filter_In. split.
  - intros [Hin Hc]. split; [exact Hin|].
    apply contains_lower_iff; [|exact Hc].
    rewrite List.Forall_forall in Hlow. now apply Hlow.
  - intros [Hin Hocc]. split; [exact Hin|].
    apply contains_lower_iff; [|exact Hocc].
    rewrite List.Forall_forall in Hlow. now apply Hlow.
Qed.

Lemma scores_nonnegative (text : string) :
  Forall (fun e => (0 <= score (snd e))%Q) (calculate_route_scores text).
Proof.
  unfold calculate_route_scores, score_rules, routing_rules. simpl.
  repeat (apply List.Forall_cons; [|]); try apply List.Forall_nil; simpl.
  all: rewrite Qmult_1_r; unfold Qle; simpl; lia.
Qed.

(** C2.  For every envelope, with [text] its content,
    [calculate_route_scores] gives the three categories finance,
    support, website, in this order; the score of a category is the
    number of its distinct keywords that occur in [text] ignoring case,
    times its weight.  [determine_route] answers, and [route] stores its
    answer in [routing]: when no score is above 0, the category
    [unknown], the confidence 0 and the reason "No keywords matched";
    otherwise the first category, in this order, whose score is the
    highest (the scores before it are strictly lower, the scores after
    it are not higher), with this score as the confidence. *)
Theorem router_scores_and_selects (m : message) :
  let text := get_content m in
  let scores := calculate_route_scores text in
  List.map fst scores = ["finance"; "support"; "website"] /\
  (forall name config,
     In (name, config) routing_rules ->
     exists hits,
       List.NoDup hits /\
       (forall k, In k hits <->
                  In k (keywords config) /\ occurs_ignoring_case k text) /\
       lookup_score scores name =
         Some {| score := inject_Z (Z.of_nat (length hits)) * weight config;
                 matches := length hits |}) /\
  exists winner confidence why,
    determine_route scores = Ok (winner, confidence, why) /\
    route m =
      Ok (set_processing_stage
            (set_routing m
               {| category := winner;
                  confidence_score := confidence;
                  reason := why;
                  all_scores :=
                    List.map (fun entry => (fst entry, score (snd entry)))
                      scores |})
            "routed") /\
    ((Forall (fun e => (score (snd e) == 0)%Q) scores /\
      winner = "unknown" /\ confidence = 0%Q /\
      why = "No keywords matched") \/
     (exists before d after,
        scores = before ++ (winner, d) :: after /\
        (0 < score d)%Q /\
        Forall (fun e => (score (snd e) < score d)%Q) before /\
        Forall (fun e => (score (snd e) <= score d)%Q) after /\
        confidence = score d /\
        why = "Matched " +:+ str_of_nat (matches d) +:+ " keywords")).
Proof.
  intros text scores. split; [reflexivity|]. split.
  - intros name config Hin.
    pose proof routing_rules_keywords as Hk.
    rewrite List.Forall_forall in Hk.
    destruct (Hk _ Hin) as [Hnd Hlow]. simpl in Hnd, Hlow.
    destruct (count_matches_distinct (keywords config) text Hnd Hlow)
      as (hits & Hnh & Hiff & Hcount).
    exists hits. split; [exact Hnh|]. split; [exact Hiff|].
    rewrite <- Hcount.
    unfold routing_rules in Hin. simpl in Hin.
    destruct Hin as [H | [H | [H | []]]]; inversion H; subst; reflexivity.
  - unfold route. fold text. fold scores.
    destruct (determine_route_selects scores)
      as [[Hall Hd] | (before & c & d & after & Hs & Hpos & Hlt & Hle & Hd)].
    + apply NoDup_ListNoDup, (bool_decide_unpack _). vm_compute. reflexivity.
    + rewrite Hd. eexists _, _, _. split; [reflexivity|].
      split; [reflexivity|]. left. split; [|auto].
      pose proof (scores_nonnegative text) as Hnn. fold scores in Hnn.
      rewrite List.Forall_forall in *. intros e He.
      apply Qle_antisym; auto.
    + rewrite Hd. eexists _, _, _. split; [reflexivity|].
      split; [reflexivity|]. right. exists before, d, after. auto 10.
Qed.

(** The examples of the specification. *)
Example route_invoice_refund_login :
  determine_route
    (calculate_route_scores "Invoice and refund, after my login")
  = Ok ("finance", 2%Q, "Matched 2 keywords").
Proof. vm_compute. reflexivity. Qed.

Example route_no_keyword :
  determine_route (calculate_route_scores "Good morning to you all")
  = Ok ("unknown", 0%Q, "No keywords matched").
Proof. vm_compute. reflexivity. Qed.

(** A tie goes to the earlier category. *)
Example route_tie_support_website :
  determine_route (calculate_route_scores "a bug in the password page")
  = Ok ("support", 1%Q, "Matched 1 keywords").
Proof. vm_compute. reflexivity. Qed.

End RouterClaims.

(** ** The stages and their handlers *)

Section StageFacts.
Import PyStr.

(** *** Validator *)

Lemma validate_list (m : message) (es : list string) :
  errors m = Some es ->
  exists m' issues,
    ContentValidator.validate m = Ok m' /\
    errors m' = Some (es ++ List.map (String.append "validation:") issues).
Proof.
  intros He. unfold ContentValidator.validate.
  destruct (is_valid _).
  - eexists. exists []. split; [reflexivity|]. simpl. now rewrite app_nil_r.
  - edestruct append_issues_list as (m' & Hm' & Hes' & _); [|eauto].
    exact He.
Qed.

(** *** Extractor *)

Lemma process_errors (m : message) :
  errors (DataExtractor.process m) = errors m.
Proof. reflexivity. Qed.

Lemma extractor_handle_cases (m : message) (r : reply) :
  DataExtractor.handle_event m = Ok r ->
  (errors (body r) = errors m /\
   ce_type r = "com.learning.message.extracted") \/
  (exists es, errors m = Some es /\
              errors (body r) = Some (es ++ ["No email address found"]) /\
              ce_type r = "com.learning.message.extraction-incomplete").
Proof.
  unfold DataExtractor.handle_event.
  destruct (truthy _).
  - intros H. inversion H; subst. left. auto.
  - unfold append_error. rewrite process_errors.
    destruct (errors m) as [es|]; [|discriminate].
    intros H. inversion H; subst. right. exists es. auto.
Qed.

Lemma extractor_handle_total (m : message) (es : list string) :
  errors m = Some es -> exists r, DataExtractor.handle_event m = Ok r.
Proof.
  intros He. unfold DataExtractor.handle_event.
  destruct (truthy _); [eauto|].
  unfold append_error. rewrite process_errors, He. eauto.
Qed.

(** *** Enricher *)

(** What [enrich] leaves when it returns: one new error entry, of the
    namespace [enrichment:], and a customer marked unknown; or no new
    entry, and a customer marked known. *)
Lemma enrich_cases (database : string -> DatabaseEnricher.query_result)
    (m m' : message) :
  DatabaseEnricher.enrich database m = Ok m' ->
  (exists es e,
     errors m = Some es /\ errors m' = Some (es ++ [e]) /\
     startswith "enrichment:" e = true /\
     DatabaseEnricher.get_is_known_customer m' = false) \/
  (errors m' = errors m /\
   DatabaseEnricher.get_is_known_customer m' = true).
Proof.
  unfold DatabaseEnricher.enrich, DatabaseEnricher.enrich_try,
    DatabaseEnricher.lookup_customer, append_error.
  destruct (negb (truthy _)).
  - destruct (errors m) as [es|] eqn:He; [|discriminate].
    intros H. inversion H; subst. left.
    exists es, "enrichment:no-email". auto.
  - destruct (database _) as [row | | detail]; simpl.
    + intros H. inversion H; subst. right. auto.
    + destruct (errors m) as [es|] eqn:He; simpl.
      * intros H. inversion H; subst. left. eexists es, _. simpl. auto.
      * rewrite He. discriminate.
    + destruct (errors m) as [es|] eqn:He; [|discriminate].
      intros H. inversion H; subst. left. eexists es, _. simpl. auto.
Qed.

Lemma enrich_total (database : string -> DatabaseEnricher.query_result)
    (m : message) (es : list string) :
  errors m = Some es -> exists m', DatabaseEnricher.enrich database m = Ok m'.
Proof.
  intros He.
  unfold DatabaseEnricher.enrich, DatabaseEnricher.enrich_try,
    DatabaseEnricher.lookup_customer, append_error.
  destruct (negb (truthy _)).
  - rewrite He. eauto.
  - destruct (database _) as [row | | detail]; simpl; rewrite ?He; eauto.
Qed.

(** *** Router *)

Lemma route_returns (m : message) :
  exists m' info,
    MessageRouter.route m = Ok m' /\
    errors m' = errors m /\ routing m' = Some info /\
    In (category info) ["finance"; "support"; "website"; "unknown"].
Proof.
  unfold MessageRouter.route.
  destruct (determine_route_selects
              (MessageRouter.calculate_route_scores (get_content m)))
    as [[_ Hd] | (before & c & d & after & Hs & _ & _ & _ & Hd)].
  - apply NoDup_ListNoDup, (bool_decide_unpack _). vm_compute. reflexivity.
  - rewrite Hd. eexists _, _. split; [reflexivity|]. simpl. tauto.
  - rewrite Hd. eexists _, _. split; [reflexivity|]. simpl.
    split; [reflexivity|]. split; [reflexivity|].
    assert (Hin : In c (List.map fst
                (MessageRouter.calculate_route_scores (get_content m)))).
    { rewrite Hs, map_app. apply in_or_app. right. now left. }
    simpl in Hin. tauto.
Qed.

(** *** All four *)

Lemma handle_total (database : string -> DatabaseEnricher.query_result)
    (s : stage) (m : message) (es : list string) :
  errors m = Some es -> exists r, handle database s m = Ok r.
Proof.
  intros He. destruct s; simpl.
  - unfold ContentValidator.handle_event.
    destruct (validate_list m es He) as (m' & issues & -> & _). eauto.
  - eapply extractor_handle_total; eauto.
  - unfold DatabaseEnricher.handle_event.
    destruct (enrich_total database m es He) as (m' & ->). eauto.
  - unfold MessageRouter.handle_event.
    destruct (route_returns m) as (m' & info & -> & _). eauto.
Qed.

Lemma handle_extends_errors
    (database : string -> DatabaseEnricher.query_result)
    (s : stage) (m : message) (es : list string) (r : reply) :
  errors m = Some es ->
  handle database s m = Ok r ->
  exists added, errors (body r) = Some (es ++ added).
Proof.
  intros He Hr. destruct s; simpl in Hr.
  - unfold ContentValidator.handle_event in Hr.
    destruct (validate_list m es He) as (m' & issues & Hv & Hes).
    rewrite Hv in Hr. inversion Hr; subst. simpl. eauto.
  - apply extractor_handle_cases in Hr
      as [[Hes _] | (es' & He' & Hes & _)].
    + exists []. rewrite Hes, He, app_nil_r. reflexivity.
    + rewrite He in He'. inversion He'; subst. eauto.
  - unfold DatabaseEnricher.handle_event in Hr.
    destruct (DatabaseEnricher.enrich database m) as [m'|] eqn:Hen;
      [|discriminate].
    inversion Hr; subst. simpl.
    apply enrich_cases in Hen
      as [(es' & e & He' & Hes & _) | [Hes _]].
    + rewrite He in He'. inversion He'; subst. eauto.
    + exists []. rewrite Hes, He, app_nil_r. reflexivity.
  - unfold MessageRouter.handle_event in Hr.
    destruct (route_returns m) as (m' & info & Hroute & Hes & _ & _).
    rewrite Hroute in Hr. inversion Hr; subst. simpl.
    exists []. rewrite Hes, He, app_nil_r. reflexivity.
Qed.

End StageFacts.

Section StageClaims.
Import PyStr.

(** C5.  For each of the four stages and every envelope whose [errors]
    is a list, the handler of the stage answers, and the [errors] of the
    envelope it answers with is the list it received followed by what
    the stage added: nothing is removed, reordered or changed. *)
Theorem errors_is_append_only
    (database : string -> DatabaseEnricher.query_result)
    (s : stage) (m : message) (es : list string) :
  errors m = Some es ->
  exists r added,
    handle database s m = Ok r /\ errors (body r) = Some (es ++ added).
Proof.
  intros He.
  destruct (handle_total database s m es He) as [r Hr].
  destruct (handle_extends_errors database s m es r He Hr) as [added Ha].
  eauto.
Qed.

Lemma errors_is_append_only_witness :
  exists r added,
    handle (fun _ => DatabaseEnricher.NoRow) Validator
      {| message_id := Some "m-1"; content := Some "short";
         processing_stage := Some "received";
         errors := Some ["upstream:note"];
         validation := None; extracted_data := None;
         customer_data := None; routing := None |} = Ok r /\
    errors (body r) = Some (["upstream:note"] ++ added).
Proof.
  apply (errors_is_append_only (fun _ => DatabaseEnricher.NoRow) Validator
           {| message_id := Some "m-1"; content := Some "short";
              processing_stage := Some "received";
              errors := Some ["upstream:note"];
              validation := None; extracted_data := None;
              customer_data := None; routing := None |}
           ["upstream:note"]).
  reflexivity.
Defined.

(** C1.  A stage handler answers every envelope whose [errors] is a
    list.  Whenever the Validator, the Extractor or the Enricher
    answers, its event type is the stage's failed label if the envelope
    it answers with has more error entries than the one it received, and
    the stage's success label otherwise.  Whenever the Router answers,
    it has left [errors] as it was, the category of the routing result
    is finance, support, website or unknown, and its event type is
    [com.learning.message.routed.] followed by that category: the label
    follows the category while [errors] stays the same. *)
Theorem outcome_selector
    (database : string -> DatabaseEnricher.query_result)
    (s : stage) (m : message) :
  (forall es, errors m = Some es -> exists r, handle database s m = Ok r) /\
  (forall r,
     handle database s m = Ok r ->
     match delta_labels s with
     | Some (failed, success) =>
         ce_type r =
           if error_count m <? error_count (body r) then failed else success
     | None =>
         errors (body r) = errors m /\
         In (MessageRouter.get_category (body r))
            ["finance"; "support"; "website"; "unknown"] /\
         ce_type r =
           "com.learning.message.routed." +:+
             MessageRouter.get_category (body r)
     end).
Proof.
  split; [intros es He; eapply handle_total; eauto|].
  intros r Hr. destruct s; simpl in *.
  - unfold ContentValidator.handle_event in Hr.
    destruct (ContentValidator.validate m); [|discriminate].
    inversion Hr; subst. reflexivity.
  - apply extractor_handle_cases in Hr
      as [[Hes ->] | (es & He & Hes & ->)].
    + unfold error_count. rewrite Hes, Nat.ltb_irrefl. reflexivity.
    + unfold error_count. rewrite Hes, He, length_app. simpl.
      replace (length es <? length es + 1) with true; [reflexivity|].
      symmetry. apply Nat.ltb_lt. lia.
  - unfold DatabaseEnricher.handle_event in Hr.
    destruct (DatabaseEnricher.enrich database m) as [m'|] eqn:Hen;
      [|discriminate].
    inversion Hr; subst. simpl.
    apply enrich_cases in Hen as [(es & e & He & Hes & _ & _) | [Hes Hk]].
    + unfold error_count. rewrite Hes, He, length_app. simpl.
      replace (length es <? length es + 1) with true; [reflexivity|].
      symmetry. apply Nat.ltb_lt. lia.
    + unfold error_count. rewrite Hes, Nat.ltb_irrefl, Hk. reflexivity.
  - unfold MessageRouter.handle_event in Hr.
    destruct (route_returns m) as (m' & info & Hroute & Hes & Hinfo & Hcat).
    rewrite Hroute in Hr. inversion Hr; subst. simpl.
    assert (Hin : In (MessageRouter.get_category m')
                     ["finance"; "support"; "website"; "unknown"]).
    { unfold MessageRouter.get_category. rewrite Hinfo. exact Hcat. }
    split; [exact Hes|]. split; [exact Hin|].
    cbn [In] in Hin.
    destruct Hin as [<- | [<- | [<- | [<- | []]]]]; reflexivity.
Qed.

Lemma outcome_selector_witness :
  (exists r,
     handle (fun _ => DatabaseEnricher.NoRow) Extractor
       (create_payload "m-1" "please call me back") = Ok r /\
     ce_type r = "com.learning.message.extraction-incomplete") /\
  (exists r,
     handle (fun _ => DatabaseEnricher.NoRow) Router
       (create_payload "m-2" "my invoice is wrong") = Ok r /\
     errors (body r) = Some [] /\
     ce_type r = "com.learning.message.routed.finance") /\
  (exists r,
     handle (fun _ => DatabaseEnricher.NoRow) Router
       (create_payload "m-3" "good morning to you") = Ok r /\
     errors (body r) = Some [] /\
     ce_type r = "com.learning.message.routed.unknown").
Proof.
  split; [|split].
  - destruct (outcome_selector (fun _ => DatabaseEnricher.NoRow) Extractor
                (create_payload "m-1" "please call me back"))
      as [Htotal Hlabel].
    destruct (Htotal [] eq_refl) as [r Hr].
    exists r. split; [exact Hr|].
    rewrite (Hlabel r Hr).
    vm_compute in Hr. inversion Hr; subst. reflexivity.
  - destruct (outcome_selector (fun _ => DatabaseEnricher.NoRow) Router
                (create_payload "m-2" "my invoice is wrong"))
      as [Htotal Hlabel].
    destruct (Htotal [] eq_refl) as [r Hr].
    exists r. split; [exact Hr|].
    destruct (Hlabel r Hr) as (He & _ & Ht). cbn [delta_labels] in *.
    rewrite He, Ht.
    vm_compute in Hr. inversion Hr; subst. split; reflexivity.
  - destruct (outcome_selector (fun _ => DatabaseEnricher.NoRow) Router
                (create_payload "m-3" "good morning to you"))
      as [Htotal Hlabel].
    destruct (Htotal [] eq_refl) as [r Hr].
    exists r. split; [exact Hr|].
    destruct (Hlabel r Hr) as (He & _ & Ht). cbn [delta_labels] in *.
    rewrite He, Ht.
    vm_compute in Hr. inversion Hr; subst. split; reflexivity.
Defined.

(** C10.  For every envelope whose [errors] is a list, the Enricher's
    handler answers, and never with the event type
    [com.learning.message.unknown-customer]: either [enrich] added an
    error entry and marked the customer unknown, and the event type is
    [enrichment-failed]; or it added none and marked the customer known,
    and the event type is [enriched]. *)
Theorem unknown_customer_label_is_unreachable
    (database : string -> DatabaseEnricher.query_result)
    (m : message) (es : list string) :
  errors m = Some es ->
  exists r,
    DatabaseEnricher.handle_event database m = Ok r /\
    ce_type r <> "com.learning.message.unknown-customer" /\
    ((error_count m < error_count (body r) /\
      DatabaseEnricher.get_is_known_customer (body r) = false /\
      ce_type r = "com.learning.message.enrichment-failed") \/
     (errors (body r) = errors m /\
      DatabaseEnricher.get_is_known_customer (body r) = true /\
      ce_type r = "com.learning.message.enriched")).
Proof.
  intros He. unfold DatabaseEnricher.handle_event.
  destruct (enrich_total database m es He) as [m' Hen]. rewrite Hen.
  eexists. split; [reflexivity|]. simpl.
  apply enrich_cases in Hen as [(es' & e & He' & Hes & _ & Hk) | [Hes Hk]].
  - assert (Hlt : error_count m < error_count m').
    { unfold error_count. rewrite Hes, He', length_app. simpl. lia. }
    apply Nat.ltb_lt in Hlt as Hb. rewrite Hb.
    split; [discriminate|]. left. auto.
  - unfold error_count. rewrite Hes, Nat.ltb_irrefl, Hk.
    split; [discriminate|]. right. auto.
Qed.

Lemma unknown_customer_label_is_unreachable_witness :
  exists r,
    DatabaseEnricher.handle_event (fun _ => DatabaseEnricher.NoRow)
      (DataExtractor.process (create_payload "m-1" "I am at ann@example.org"))
      = Ok r /\
    ce_type r <> "com.learning.message.unknown-customer".
Proof.
  destruct (unknown_customer_label_is_unreachable
              (fun _ => DatabaseEnricher.NoRow)
              (DataExtractor.process
                 (create_payload "m-1" "I am at ann@example.org"))
              [] eq_refl) as (r & Hr & Hne & _).
  exists r. split; [exact Hr | exact Hne].
Defined.

(** C8, at the input where the code departs from it.  On a content
    without an email address the Extractor's handler appends the entry
    "No email address found"; the entry has no colon, so no namespace
    tag of the form [tag:] is a prefix of it. *)
Theorem extractor_entry_has_no_namespace :
  exists r,
    DataExtractor.handle_event (create_payload "m-1" "please call me back")
      = Ok r /\
    errors (body r) = Some ["No email address found"] /\
    forall tag, startswith (tag +:+ ":") "No email address found" = false.
Proof.
  eexists. split; [vm_compute; reflexivity|]. split; [reflexivity|].
  intros tag.
  destruct (startswith (tag +:+ ":") "No email address found") eqn:E;
    [|reflexivity].
  apply startswith_iff in E as [post E].
  assert (H : contains ":" "No email address found" = true).
  { apply contains_iff. exists tag, post. rewrite E.
    now rewrite append_assoc. }
  vm_compute in H. discriminate.
Qed.

(** The entries of the two other stages that append carry the stage's
    tag. *)
Lemma validator_entries_tagged (m : message) (es : list string) (r : reply) :
  errors m = Some es ->
  ContentValidator.handle_event m = Ok r ->
  exists added,
    errors (body r) = Some (es ++ added) /\
    Forall (fun e => startswith "validation:" e = true) added.
Proof.
  intros He Hr. unfold ContentValidator.handle_event in Hr.
  destruct (validate_list m es He) as (m' & issues & Hv & Hes).
  rewrite Hv in Hr. inversion Hr; subst. simpl.
  eexists. split; [exact Hes|].
  apply List.Forall_forall. intros e Hin.
  apply List.in_map_iff in Hin as (issue & <- & _). reflexivity.
Qed.

Lemma enricher_entries_tagged
    (database : string -> DatabaseEnricher.query_result)
    (m : message) (es : list string) (r : reply) :
  errors m = Some es ->
  DatabaseEnricher.handle_event database m = Ok r ->
  exists added,
    errors (body r) = Some (es ++ added) /\
    Forall (fun e => startswith "enrichment:" e = true) added.
Proof.
  intros He Hr. unfold DatabaseEnricher.handle_event in Hr.
  destruct (DatabaseEnricher.enrich database m) as [m'|] eqn:Hen;
    [|discriminate].
  inversion Hr; subst. simpl.
  apply enrich_cases in Hen as [(es' & e & He' & Hes & Htag & _) | [Hes _]].
  - rewrite He in He'. inversion He'; subst.
    exists [e]. split; [exact Hes|]. now constructor.
  - exists []. rewrite Hes, He, app_nil_r. split; [reflexivity | constructor].
Qed.

(** C9, at the input where the code departs from it.  The content
    "hello world" has no upper-case letter and none of the three
    introductions, and [extract_name] answers the name "Hello World":
    under [re.IGNORECASE] the fallback pattern takes any two words of two
    letters or more. *)
Theorem extract_name_takes_lower_case_words :
  count_chars isupper "hello world" = 0 /\
  contains "my name is" (lower "hello world") = false /\
  contains "i am" (lower "hello world") = false /\
  contains "this is" (lower "hello world") = false /\
  DataExtractor.extract_name "hello world" = Some "Hello World".
Proof. vm_compute. repeat split. Qed.

(** The example of the specification. *)
Example extract_name_john_doe :
  DataExtractor.extract_name "My name is John Doe, email john@example.com"
    = Some "John Doe" /\
  DataExtractor.extract_email "My name is John Doe, email john@example.com"
    = Some "john@example.com".
Proof. vm_compute. split; reflexivity. Qed.

(** The introduction pattern, too, takes lower-case words as the name. *)
Example extract_name_after_introduction :
  DataExtractor.extract_name "I am very happy with it" = Some "Very Happy With It".
Proof. vm_compute. reflexivity. Qed.

End StageClaims.

(** ** The announcer *)

Section AnnouncerFacts.
Import EventAnnouncer.

Lemma contents_insert_eq qs q l : contents (<[q := l]> qs) q = l.
Proof. unfold contents. now rewrite lookup_insert_eq. Qed.

Lemma contents_insert_ne qs q q' l :
  q <> q' -> contents (<[q := l]> qs) q' = contents qs q'.
Proof. intros H. unfold contents. now rewrite lookup_insert_ne. Qed.

Lemma is_full_insert_ne qs q q' l :
  q <> q' -> is_full (<[q := l]> qs) q' = is_full qs q'.
Proof. intros H. unfold is_full. now rewrite contents_insert_ne. Qed.

Lemma filter_has_room_insert (qs : gmap nat (list string)) q l
    (ls : list nat) :
  q ∉ ls ->
  filter (has_room (<[q := l]> qs)) ls = filter (has_room qs) ls.
Proof.
  induction ls as [|x ls IH]; intros Hq; [reflexivity|].
  apply not_elem_of_cons in Hq as [Hne Hq].
  rewrite !filter_cons, IH by exact Hq.
  destruct (decide (has_room (<[q := l]> qs) x)) as [H1|H1],
           (decide (has_room qs x)) as [H2|H2];
    try reflexivity; exfalso; unfold has_room in *;
    rewrite is_full_insert_ne in H1 by congruence; congruence.
Qed.

(** The loop of [announce] over the indices below [length todo], the
    listeners from there on being [kept]. *)
Lemma announce_loop_sheds (msg : string) (todo : list nat) :
  forall (kept : list nat) (h : list string) (qs : gmap nat (list string)),
    NoDup (todo ++ kept) ->
    exists qs',
      announce_loop msg (length todo)
        {| listeners := todo ++ kept; history := h; queues := qs |} =
      Ok {| listeners := filter (has_room qs) todo ++ kept; history := h;
            queues := qs' |} /\
      dom qs ⊆ dom qs' /\
      (forall q, q ∈ todo -> is_full qs q = false ->
                 contents qs' q = contents qs q ++ [msg]) /\
      (forall q, (q ∉ todo) \/ is_full qs q = true -> qs' !! q = qs !! q).
Proof.
  induction todo as [|q todo IH] using rev_ind; intros kept h qs Hnd.
  - exists qs. simpl. split; [reflexivity|]. split; [set_solver|].
    split; [intros q Hq; inversion Hq | reflexivity].
  - rewrite length_app, Nat.add_1_r. cbn [announce_loop].
    unfold announce_at. cbn [listeners queues history].
    rewrite <- app_assoc. cbn [app].
    rewrite list_lookup_middle by reflexivity.
    rewrite <- app_assoc in Hnd. cbn [app] in Hnd.
    assert (Hq : q ∉ todo).
    { apply NoDup_app in Hnd as (_ & Hdisj & _).
      intros Hin. apply (Hdisj q Hin). left. }
    unfold put_nowait. rewrite filter_app, filter_cons, filter_nil.
    destruct (is_full qs q) eqn:Hfull.
    + rewrite delete_middle.
      destruct (IH kept h qs) as (qs' & Hloop & Hdom & Hput & Hsame).
      { apply NoDup_app in Hnd as (H1 & H2 & H3).
        apply NoDup_cons in H3 as [_ H3].
        apply NoDup_app. split; [exact H1|]. split; [|exact H3].
        intros x Hx Hk. apply (H2 x Hx). now right. }
      exists qs'. rewrite Hloop.
      destruct (decide (has_room qs q)) as [Hroom|_];
        [unfold has_room in Hroom; congruence|].
      rewrite app_nil_r. split; [reflexivity|]. split; [exact Hdom|]. split.
      * intros x Hx Hxfull. apply Hput; [|exact Hxfull].
        apply elem_of_app in Hx as [Hx|Hx]; [exact Hx|].
        apply list_elem_of_singleton in Hx. congruence.
      * intros x [Hx|Hx]; apply Hsame; [|now right].
        left. intros Hin. apply Hx, elem_of_app. now left.
    + destruct (IH (q :: kept) h (<[q := contents qs q ++ [msg]]> qs) Hnd)
        as (qs' & Hloop & Hdom & Hput & Hsame).
      exists qs'. rewrite Hloop.
      rewrite filter_has_room_insert by exact Hq.
      destruct (decide (has_room qs q)) as [_|Hroom];
        [|unfold has_room in Hroom; congruence].
      rewrite <- app_assoc. cbn [app].
      split; [reflexivity|]. split.
      { etransitivity; [|exact Hdom]. rewrite dom_insert_L. set_solver. }
      split.
      * intros x Hx Hxfull.
        apply elem_of_app in Hx as [Hx|Hx].
        -- rewrite Hput; [|exact Hx|].
           ++ rewrite contents_insert_ne; [reflexivity|]. congruence.
           ++ rewrite is_full_insert_ne; [exact Hxfull|]. congruence.
        -- apply list_elem_of_singleton in Hx. subst x.
           unfold contents at 1. rewrite Hsame by now left.
           now rewrite lookup_insert_eq.
      * intros x Hx.
        assert (Hne : q <> x).
        { intros ->. destruct Hx as [Hx|Hx]; [|congruence].
          apply Hx, elem_of_app. right. left. }
        rewrite Hsame.
        -- now rewrite lookup_insert_ne.
        -- destruct Hx as [Hx|Hx].
           ++ left. intros Hin. apply Hx, elem_of_app. now left.
           ++ right. now rewrite is_full_insert_ne.
Qed.

End AnnouncerFacts.

Section AnnouncerClaims.
Import EventAnnouncer.

Lemma announce_loop_history (msg : string) (n : nat) :
  forall s s', announce_loop msg n s = Ok s' -> history s' = history s.
Proof.
  induction n as [|i IH]; intros s s' H; simpl in H.
  - now inversion H.
  - unfold announce_at in H.
    destruct (listeners s !! i) as [q|]; [|discriminate].
    destruct (put_nowait (queues s) q msg) as [qs'|[]]; try discriminate;
      apply IH in H; exact H.
Qed.

(** The loop never leaves its list: an index it reaches is in range. *)
Lemma announce_loop_total (msg : string) (n : nat) :
  forall s, n <= length (listeners s) ->
            exists s', announce_loop msg n s = Ok s'.
Proof.
  induction n as [|i IH]; intros s Hn; simpl; [eauto|].
  unfold announce_at.
  destruct (listeners s !! i) as [q|] eqn:Hq.
  - unfold put_nowait. destruct (is_full (queues s) q).
    + apply IH. cbn [listeners]. rewrite length_delete by eauto. lia.
    + apply IH. cbn [listeners]. lia.
  - apply lookup_ge_None in Hq. lia.
Qed.

Lemma deque_append_length (d : list string) (x : string) :
  length d <= HISTORY_MAXLEN ->
  length (deque_append HISTORY_MAXLEN d x) <= HISTORY_MAXLEN.
Proof.
  intros Hd. unfold deque_append.
  destruct (HISTORY_MAXLEN <? length (d ++ [x])) eqn:E.
  - destruct d as [|a d]; simpl in *; [lia|]. rewrite length_app. simpl. lia.
  - apply Nat.ltb_ge in E. exact E.
Qed.

(** Appending to a deque that is not full adds the item; appending to a
    full one also drops the oldest item. *)
Lemma deque_append_cases (d : list string) (x : string) :
  length d <= HISTORY_MAXLEN ->
  deque_append HISTORY_MAXLEN d x =
    if length d =? HISTORY_MAXLEN then tail d ++ [x] else d ++ [x].
Proof.
  intros Hd. unfold deque_append. rewrite length_app. simpl.
  destruct (length d =? HISTORY_MAXLEN) eqn:E.
  - apply Nat.eqb_eq in E.
    replace (HISTORY_MAXLEN <? length d + 1) with true
      by (symmetry; apply Nat.ltb_lt; lia).
    destruct d; [discriminate E | reflexivity].
  - apply Nat.eqb_neq in E.
    replace (HISTORY_MAXLEN <? length d + 1) with false
      by (symmetry; apply Nat.ltb_ge; lia).
    reflexivity.
Qed.

(** One [announce] on a state the code keeps to. *)
Lemma announce_sheds (s : state) (msg : string) :
  wf s ->
  exists s',
    announce s msg = Ok s' /\ wf s' /\
    history s' = deque_append HISTORY_MAXLEN (history s) msg /\
    listeners s' = filter (has_room (queues s)) (listeners s) /\
    (forall q, q ∈ listeners s -> is_full (queues s) q = false ->
               contents (queues s') q = contents (queues s) q ++ [msg]) /\
    (forall q, (q ∉ listeners s) \/ is_full (queues s) q = true ->
               queues s' !! q = queues s !! q).
Proof.
  intros (Hnd & Hdom & Hlen). unfold announce. cbn [listeners].
  destruct (announce_loop_sheds msg (listeners s) []
              (deque_append HISTORY_MAXLEN (history s) msg) (queues s))
    as (qs' & Hloop & Hsub & Hput & Hsame).
  { now rewrite app_nil_r. }
  rewrite !app_nil_r in Hloop. rewrite Hloop.
  eexists. split; [reflexivity|]. cbn [listeners history queues].
  split; [|auto].
  split; [now apply NoDup_filter|]. split.
  - intros q Hq. apply list_elem_of_filter in Hq as [_ Hq].
    apply Hsub, Hdom, Hq.
  - now apply deque_append_length.
Qed.

(** A queue that is not registered stays so under [announce], with the
    items it has. *)
Lemma announce_all_unregistered (msgs : list string) :
  forall s, wf s ->
    exists s',
      announce_all s msgs = Ok s' /\ wf s' /\
      history s' = fold_left (deque_append HISTORY_MAXLEN) msgs (history s) /\
      (forall q, q ∉ listeners s ->
                 (q ∉ listeners s') /\ queues s' !! q = queues s !! q).
Proof.
  induction msgs as [|msg msgs IH]; intros s Hwf; simpl.
  - exists s. auto.
  - destruct (announce_sheds s msg Hwf)
      as (s1 & -> & Hwf1 & Hh1 & Hl1 & _ & Hsame1).
    destruct (IH s1 Hwf1) as (s2 & -> & Hwf2 & Hh2 & Hun2).
    exists s2. split; [reflexivity|]. split; [exact Hwf2|].
    split; [now rewrite Hh2, Hh1|].
    intros q Hq.
    assert (Hq1 : q ∉ listeners s1).
    { rewrite Hl1. intros Hin. apply list_elem_of_filter in Hin as [_ Hin].
      contradiction. }
    destruct (Hun2 q Hq1) as [Hq2 Hqs2]. split; [exact Hq2|].
    rewrite Hqs2. apply Hsame1. now left.
Qed.

(** C4.  On every state of the announcer, [announce] returns normally
    and has appended the item to the history, dropping the oldest item
    when the history was full.  On the states the code keeps to, the
    listeners left are those whose queue had room, in their order; each
    of them has the item at the end of its queue; a listener whose queue
    was full is no longer registered and, whatever is announced later,
    is not registered again and has the very items it had.  With no
    listener registered, only the history changes. *)
Theorem announce_never_raises_and_sheds_full_queues
    (s : state) (msg : string) :
  exists s',
    announce s msg = Ok s' /\
    history s' = deque_append HISTORY_MAXLEN (history s) msg /\
    (listeners s = [] -> listeners s' = [] /\ queues s' = queues s) /\
    (wf s ->
     wf s' /\
     history s' =
       (if length (history s) =? HISTORY_MAXLEN
        then tail (history s) ++ [msg] else history s ++ [msg]) /\
     listeners s' = filter (has_room (queues s)) (listeners s) /\
     (forall q, q ∈ listeners s -> is_full (queues s) q = false ->
                contents (queues s') q = contents (queues s) q ++ [msg]) /\
     (forall q, q ∈ listeners s -> is_full (queues s) q = true ->
                (q ∉ listeners s') /\
                forall later,
                  exists s'',
                    announce_all s' later = Ok s'' /\
                    (q ∉ listeners s'') /\
                    contents (queues s'') q = contents (queues s) q)).
Proof.
  destruct (announce_loop_total msg (length (listeners s))
              {| listeners := listeners s;
                 history := deque_append HISTORY_MAXLEN (history s) msg;
                 queues := queues s |}) as [s' Hs']; [reflexivity|].
  exists s'. split; [exact Hs'|].
  split; [apply announce_loop_history in Hs'; exact Hs'|].
  split.
  { intros Hnil. unfold announce in Hs'. cbn [listeners] in Hs'.
    rewrite Hnil in Hs'. simpl in Hs'. inversion Hs'; subst s'.
    cbn [listeners queues]. auto. }
  intros Hwf.
  destruct (announce_sheds s msg Hwf)
    as (s1 & Hs1 & Hwf1 & Hh1 & Hl1 & Hput & Hsame).
  unfold announce in Hs1. cbn [listeners] in Hs1.
  rewrite Hs' in Hs1. inversion Hs1; subst s1.
  split; [exact Hwf1|].
  split; [rewrite Hh1; apply deque_append_cases, Hwf|].
  split; [exact Hl1|]. split; [exact Hput|].
  intros q Hq Hfull.
  assert (Hq' : q ∉ listeners s').
  { rewrite Hl1. intros Hin. apply list_elem_of_filter in Hin as [Hroom _].
    unfold has_room in Hroom. congruence. }
  split; [exact Hq'|]. intros later.
  destruct (announce_all_unregistered later s' Hwf1)
    as (s'' & Hs'' & _ & _ & Hun).
  exists s''. split; [exact Hs''|].
  destruct (Hun q Hq') as [Hq'' Hqs]. split; [exact Hq''|].
  unfold contents. rewrite Hqs, Hsame by now right. reflexivity.
Qed.

End AnnouncerClaims.

Section ListenClaims.
Import EventAnnouncer.

Lemma wf_init : wf init.
Proof.
  unfold wf, init. simpl. split; [constructor|].
  split; [intros q Hq; inversion Hq | unfold HISTORY_MAXLEN; lia].
Qed.

Lemma new_queue_is_new (s : state) : wf s -> new_queue s ∉ listeners s.
Proof.
  intros (_ & Hdom & _) Hin. apply Hdom in Hin.
  unfold new_queue in Hin. now apply is_fresh in Hin.
Qed.

Lemma wf_register (s : state) : wf s -> wf (register s (new_queue s)).
Proof.
  intros Hwf. pose proof (new_queue_is_new s Hwf) as Hnew.
  destruct Hwf as (Hnd & Hdom & Hlen).
  unfold wf, register. cbn [listeners queues history].
  split; [|split; [|exact Hlen]].
  - apply NoDup_app. split; [exact Hnd|]. split; [|apply NoDup_singleton].
    intros q Hq Hq'. apply list_elem_of_singleton in Hq'. congruence.
  - intros q Hq. rewrite dom_insert_L.
    apply elem_of_app in Hq as [Hq|Hq]; [apply Hdom in Hq; set_solver|].
    apply list_elem_of_singleton in Hq. set_solver.
Qed.

(** The history after a run of [announce]s is the end of what was
    published, as long as the bound allows. *)
Lemma fold_deque_append (msgs : list string) :
  forall d,
    length d <= HISTORY_MAXLEN ->
    fold_left (deque_append HISTORY_MAXLEN) msgs d =
    skipn (length (d ++ msgs) - HISTORY_MAXLEN) (d ++ msgs).
Proof.
  induction msgs as [|x msgs IH]; intros d Hd; simpl.
  - rewrite app_nil_r.
    replace (length d - HISTORY_MAXLEN) with 0 by lia. reflexivity.
  - rewrite IH by now apply deque_append_length.
    rewrite deque_append_cases by exact Hd.
    destruct (length d =? HISTORY_MAXLEN) eqn:E.
    + apply Nat.eqb_eq in E. destruct d as [|a d].
      * discriminate E.
      * cbn [tail app length] in *. rewrite <- app_assoc. cbn [app].
        rewrite !length_app. cbn [length].
        replace (length d + S (length msgs) - HISTORY_MAXLEN)
          with (length msgs) by lia.
        replace (S (length d + S (length msgs)) - HISTORY_MAXLEN)
          with (S (length msgs)) by lia.
        reflexivity.
    + rewrite <- app_assoc. reflexivity.
Qed.

(** The [for] loop of [listen] yields the snapshot and touches nothing. *)
Lemma run_next_replaying (pending : list string) (s : state) :
  run_next (length pending) s (Replaying pending) =
  (s, Replaying [], List.map Yield pending).
Proof.
  induction pending as [|x pending IH]; simpl; [reflexivity|].
  now rewrite IH.
Qed.

Lemma run_next_created (s : state) :
  exists g,
    run_next (length (history s)) s Created =
      (s, g, List.map Yield (history s)) /\
    next s g = replay s [].
Proof.
  destruct (history s) as [|x pending] eqn:Hh.
  - exists Created. simpl. rewrite Hh. auto.
  - exists (Replaying []). cbn [length run_next next]. rewrite Hh.
    cbn [replay]. rewrite run_next_replaying. auto.
Qed.

(** C3.  Let [msgs] be announced on an announcer whose history was
    empty, and let a generator of [listen] be run after that.  Its first
    [min (length msgs) 200] steps yield the last [min (length msgs) 200]
    items of [msgs], in the order they were announced, and leave the
    announcer as it is; the step after them creates a queue, registers
    it at the end of the listeners, and waits on it: after that step the
    listeners are the former ones followed by the new queue, the new
    queue exists and is empty, and the history and every other queue are
    as they were. *)
Theorem listen_replays_history_then_registers
    (s : state) (msgs : list string) :
  wf s ->
  history s = [] ->
  exists s1 g,
    announce_all s msgs = Ok s1 /\
    let n := Nat.min (length msgs) HISTORY_MAXLEN in
    let replayed := skipn (length msgs - n) msgs in
    length replayed = n /\
    run_next n s1 Created = (s1, g, List.map Yield replayed) /\
    (new_queue s1 ∉ listeners s1) /\
    next s1 g =
      (register s1 (new_queue s1), Listening (new_queue s1), Waiting) /\
    let s' := (next s1 g).1.1 in
    listeners s' = listeners s1 ++ [new_queue s1] /\
    history s' = history s1 /\
    queues s' !! new_queue s1 = Some [] /\
    (forall q, q <> new_queue s1 -> queues s' !! q = queues s1 !! q).
Proof.
  intros Hwf Hh.
  destruct (announce_all_unregistered msgs s Hwf)
    as (s1 & Hs1 & Hwf1 & Hh1 & _).
  rewrite Hh, fold_deque_append in Hh1 by (simpl; lia). simpl in Hh1.
  destruct (run_next_created s1) as (g & Hrun & Hnext).
  exists s1, g. split; [exact Hs1|]. cbn zeta.
  assert (Hn : length msgs - Nat.min (length msgs) HISTORY_MAXLEN =
               length msgs - HISTORY_MAXLEN) by lia.
  rewrite Hn, <- Hh1.
  assert (Hlen : length (history s1) = Nat.min (length msgs) HISTORY_MAXLEN).
  { rewrite Hh1, length_skipn. lia. }
  split; [exact Hlen|]. rewrite <- Hlen.
  split; [exact Hrun|]. split; [now apply new_queue_is_new|].
  assert (Hstep : next s1 g =
            (register s1 (new_queue s1), Listening (new_queue s1), Waiting)).
  { rewrite Hnext. cbn [replay]. unfold get_and_yield, register.
    cbn [queues]. now rewrite contents_insert_eq. }
  split; [exact Hstep|]. rewrite Hstep.
  cbn [fst register listeners history queues].
  split; [reflexivity|]. split; [reflexivity|].
  split; [apply lookup_insert_eq|].
  intros q Hq. apply lookup_insert_ne. congruence.
Qed.

End ListenClaims.

Section AnnouncerStates.
Import EventAnnouncer.

Lemma wf_get_and_yield (s : state) (q : nat) :
  wf s -> wf (get_and_yield s q).1.1.
Proof.
  intros Hwf. unfold get_and_yield.
  destruct (contents (queues s) q) as [|msg waiting]; [exact Hwf|].
  destruct Hwf as (Hnd & Hdom & Hlen). unfold wf. cbn.
  split; [exact Hnd|]. split; [|exact Hlen].
  intros x Hx. rewrite dom_insert_L. apply Hdom in Hx. set_solver.
Qed.

(** A step of a generator of [listen] keeps the announcer well formed. *)
Lemma wf_next (s : state) (g : generator) : wf s -> wf (next s g).1.1.
Proof.
  intros Hwf.
  assert (Hreplay : forall pending, wf (replay s pending).1.1).
  { intros [|msg pending]; cbn [replay]; [|exact Hwf].
    apply wf_get_and_yield, wf_register, Hwf. }
  destruct g; cbn [next]; auto using wf_get_and_yield.
Qed.

Lemma list_remove_sub (x : nat) (l l' : list nat) :
  list_remove x l = Some l' ->
  (forall y, y ∈ l' -> y ∈ l) /\ (NoDup l -> NoDup l').
Proof.
  revert l'. induction l as [|y l IH]; intros l' H; simpl in H;
    [discriminate|].
  destruct (Nat.eqb x y).
  - inversion H; subst. split.
    + intros z Hz. now right.
    + intros Hnd. now apply NoDup_cons in Hnd as [_ Hnd].
  - destruct (list_remove x l) as [r|]; [|discriminate].
    inversion H; subst. destruct (IH r eq_refl) as [Hsub Hnd]. split.
    + intros z Hz. apply elem_of_cons in Hz as [->|Hz]; [left|].
      right. now apply Hsub.
    + intros Hl. apply NoDup_cons in Hl as [Hy Hl].
      apply NoDup_cons. split; [|now apply Hnd].
      intros Hin. apply Hy, Hsub, Hin.
Qed.

(** So does closing it, when [close] returns. *)
Lemma wf_close (s s' : state) (g : generator) :
  wf s -> close s g = Ok s' -> wf s'.
Proof.
  intros Hwf H. destruct g; cbn [close] in H; try (now inversion H; subst).
  destruct (list_remove q (listeners s)) as [l|] eqn:Hl; [|discriminate].
  inversion H; subst. apply list_remove_sub in Hl as [Hsub Hnd].
  destruct Hwf as (Hnd0 & Hdom & Hlen). unfold wf. cbn.
  split; [now apply Hnd|]. split; [|exact Hlen].
  intros x Hx. now apply Hdom, Hsub.
Qed.

Lemma listen_replays_history_then_registers_witness :
  exists s1 g,
    announce_all init ["e1"; "e2"; "e3"] = Ok s1 /\
    run_next 3 s1 Created = (s1, g, [Yield "e1"; Yield "e2"; Yield "e3"]) /\
    listeners s1 = [] /\
    listeners (next s1 g).1.1 = [new_queue s1].
Proof.
  destruct (listen_replays_history_then_registers init ["e1"; "e2"; "e3"])
    as (s1 & g & H1 & _ & H3 & _ & _ & H5 & _).
  - unfold wf, init. simpl. split; [constructor|].
    split; [intros q Hq; inversion Hq | unfold HISTORY_MAXLEN; lia].
  - reflexivity.
  - exists s1, g. split; [exact H1|]. split; [exact H3|].
    assert (Hl : listeners s1 = []).
    { vm_compute in H1. inversion H1; subst. reflexivity. }
    split; [exact Hl|]. rewrite H5, Hl. reflexivity.
Defined.

Lemma announce_never_raises_and_sheds_full_queues_witness :
  exists s',
    announce two_listeners "e1" = Ok s' /\
    history s' = ["e0"; "e1"] /\
    listeners s' = [1] /\
    contents (queues s') 1 = ["e0"; "e1"] /\
    contents (queues s') 0 = replicate 20 "e0".
Proof.
  destruct (announce_never_raises_and_sheds_full_queues two_listeners "e1")
    as (s' & Hs' & Hh & _ & Hwf).
  destruct Hwf as (_ & _ & Hl & Hput & Hshed).
  - unfold wf, two_listeners. cbn [listeners history queues].
    split; [apply (bool_decide_unpack _); vm_compute; reflexivity|].
    split; [|unfold HISTORY_MAXLEN; simpl; lia].
    intros q Hq. apply elem_of_dom.
    apply elem_of_cons in Hq as [->|Hq]; [vm_compute; eauto|].
    apply list_elem_of_singleton in Hq as ->. vm_compute. eauto.
  - exists s'. split; [exact Hs'|]. split; [exact Hh|].
    split; [rewrite Hl; vm_compute; reflexivity|]. split.
    + rewrite (Hput 1); [vm_compute; reflexivity | | vm_compute; reflexivity].
      right. left.
    + destruct (Hshed 0) as [_ Hlater];
        [left | vm_compute; reflexivity |].
      destruct (Hlater []) as (s'' & Hs'' & _ & Hc).
      simpl in Hs''. inversion Hs''; subst s''. rewrite Hc.
      vm_compute. reflexivity.
Defined.

End AnnouncerStates.

(** ** The examples of the specification, run on the model *)

Section SpecificationExamples.
Import PyStr ContentValidator EventAnnouncer.

Example validate_too_short :
  run_checks "hello" =
  {| is_valid := false; checks_performed := 6;
     issues_found := ["Message too short (minimum 10 characters)"] |}.
Proof. vm_compute. reflexivity. Qed.

Example validate_all_capitals :
  run_checks "AAAAAAAAAAAAAAAAAAAAAAAAA" =
  {| is_valid := false; checks_performed := 6;
     issues_found := ["Excessive capitalization detected (>50%)";
                      "Excessive character repetition detected"] |}.
Proof. vm_compute. reflexivity. Qed.

Example validate_repetition :
  run_checks "aaaaa" =
  {| is_valid := false; checks_performed := 6;
     issues_found := ["Message too short (minimum 10 characters)";
                      "Excessive character repetition detected"] |}.
Proof. vm_compute. reflexivity. Qed.

Example validate_clean_sentence :
  String.length "This is a perfectly clean sentence of fifty chars." = 50 /\
  run_checks "This is a perfectly clean sentence of fifty chars." =
  {| is_valid := true; checks_performed := 6; issues_found := [] |}.
Proof. vm_compute. split; reflexivity. Qed.

(** Several checks fail at once, and all are reported. *)
Example validate_several_issues :
  issues_found (run_checks "win the lottery, free money!! scam virus") =
  ["Spam keywords: lottery, free money"; "Profanity: scam, virus"].
Proof. vm_compute. reflexivity. Qed.

(** Five newlines in a row are not a repetition for [(.)\1{4,}]: the
    dot does not match a newline. *)
Example newlines_are_not_a_repetition :
  check_repeated_characters
    (String "010" (String "010" (String "010" (String "010"
      (String "010" EmptyString))))) = None.
Proof. vm_compute. reflexivity. Qed.

(** A listener that never reads is registered, gets twenty items, and is
    dropped by the twenty-first [announce]. *)
Example slow_listener_is_dropped :
  let '(s1, g, _) := next init Created in
  exists q s2 s3,
    g = Listening q /\ listeners s1 = [q] /\
    announce_all s1 (replicate 20 "e") = Ok s2 /\
    listeners s2 = [q] /\ contents (queues s2) q = replicate 20 "e" /\
    announce s2 "late" = Ok s3 /\
    listeners s3 = [] /\ contents (queues s3) q = replicate 20 "e" /\
    history s3 = replicate 20 "e" ++ ["late"].
Proof. vm_compute. eexists _, _, _. repeat split. Qed.

End SpecificationExamples.

(** * More properties of the code *)

(** ** What the matcher reads *)

Section MatcherSoundness.
Import PyStr Re.

#[local] Arguments append !s1 s2 : simpl nomatch.

Variable ignorecase : bool.

Lemma append_nil_r (s : string) : s +:+ "" = s.
Proof. induction s as [|c s IH]; simpl; [reflexivity | now rewrite IH]. Qed.

Lemma length_append (a b : string) :
  String.length (a +:+ b) = String.length a + String.length b.
Proof. induction a as [|c a IH]; simpl; [reflexivity | now rewrite IH]. Qed.

Lemma substring_prefix (a b : string) :
  String.substring 0 (String.length a) (a +:+ b) = a.
Proof.
  induction a as [|c a IH]; simpl.
  - now destruct b.
  - now rewrite IH.
Qed.

Lemma consumed_append (w t : string) : consumed (w +:+ t) t = w.
Proof.
  unfold consumed. rewrite length_append.
  replace (String.length w + String.length t - String.length t)
    with (String.length w) by lia.
  apply substring_prefix.
Qed.

Lemma read_text_advances (lit : string) :
  forall st st',
    read_text ignorecase lit st = Some st' ->
    exists w, rest st = w +:+ rest st'.
Proof.
  induction lit as [|c lit IH]; intros st st' H; simpl in H.
  - inversion H; subst. now exists "".
  - destruct (rest st) as [|x t] eqn:Hr; [discriminate|].
    destruct (chr_matches ignorecase c x); [|discriminate].
    apply IH in H as [w Hw]. simpl in Hw. exists (String x w).
    simpl. now rewrite Hw.
Qed.

Lemma rep_loop_sound (r : regex) :
  (forall st k res,
     rmatch ignorecase r st k = Some res ->
     exists w st', rest st = w +:+ rest st' /\ lang ignorecase r w /\
                   k st' = Some res) ->
  forall fuel lo hi st k res,
    rep_loop fuel (rmatch ignorecase r) lo hi st k = Some res ->
    exists w st',
      rest st = w +:+ rest st' /\ lang ignorecase (Rep lo hi r) w /\
      k st' = Some res.
Proof.
  intros Hbody.
  assert (Hstop : forall lo hi st (k : mstate -> option mstate) res,
            match lo with 0 => k st | S _ => None end = Some res ->
            exists w st',
              rest st = w +:+ rest st' /\ lang ignorecase (Rep lo hi r) w /\
              k st' = Some res).
  { intros lo hi st k res H. destruct lo; [|discriminate].
    exists "", st. split; [reflexivity|]. split; [constructor | exact H]. }
  induction fuel as [|fuel IH]; intros lo hi st k res H; simpl in H.
  - now apply Hstop.
  - assert (Hmore : hi <> Some 0 ->
              match
                rmatch ignorecase r st (fun st' =>
                  if String.length (rest st') <? String.length (rest st)
                  then rep_loop fuel (rmatch ignorecase r) (Nat.pred lo)
                         (option_map Nat.pred hi) st' k
                  else None)
              with
              | Some res0 => Some res0
              | None => match lo with 0 => k st | S _ => None end
              end = Some res ->
              exists w st',
                rest st = w +:+ rest st' /\
                lang ignorecase (Rep lo hi r) w /\ k st' = Some res).
    { intros Hhi H'.
      destruct (rmatch ignorecase r st _) as [res0|] eqn:Hm;
        [|now apply Hstop].
      inversion H'; subst res0.
      apply Hbody in Hm as (w1 & st1 & Hr1 & Hl1 & Hk1).
      destruct (_ <? _); [|discriminate].
      apply IH in Hk1 as (w2 & st2 & Hr2 & Hl2 & Hk2).
      exists (w1 +:+ w2), st2. split.
      - rewrite Hr1, Hr2. symmetry. apply append_assoc.
      - split; [now apply lang_rep_more | exact Hk2]. }
    destruct hi as [[|h]|].
    + now apply Hstop.
    + apply Hmore; [discriminate | exact H].
    + apply Hmore; [discriminate | exact H].
Qed.

(** A match reads a text of the pattern, and hands the rest over. *)
Lemma rmatch_sound (r : regex) :
  forall st k res,
    rmatch ignorecase r st k = Some res ->
    exists w st',
      rest st = w +:+ rest st' /\ lang ignorecase r w /\ k st' = Some res.
Proof.
  induction r; intros st k res H; simpl in H.
  - exists "", st. split; [reflexivity|]. split; [constructor | exact H].
  - destruct (rest st) as [|x t] eqn:Hr; [discriminate|].
    destruct (chr_matches ignorecase c x) eqn:Hc; [|discriminate].
    exists (String x ""), (advance st x t).
    split; [reflexivity|]. split; [now constructor | exact H].
  - destruct (rest st) as [|x t] eqn:Hr; [discriminate|].
    destruct (cls_matches ignorecase p x) eqn:Hc; [|discriminate].
    exists (String x ""), (advance st x t).
    split; [reflexivity|]. split; [now constructor | exact H].
  - apply IHr1 in H as (w1 & st1 & Hr1 & Hl1 & H).
    apply IHr2 in H as (w2 & st2 & Hr2 & Hl2 & H).
    exists (w1 +:+ w2), st2. split.
    + rewrite Hr1, Hr2. symmetry. apply append_assoc.
    + split; [now constructor | exact H].
  - destruct (rmatch ignorecase r1 st k) as [res1|] eqn:H1.
    + inversion H; subst res1.
      apply IHr1 in H1 as (w & st' & Hr & Hl & Hk).
      exists w, st'. split; [exact Hr|]. split; [now apply lang_alt_l|].
      exact Hk.
    + apply IHr2 in H as (w & st' & Hr & Hl & Hk).
      exists w, st'. split; [exact Hr|]. split; [now apply lang_alt_r|].
      exact Hk.
  - eapply rep_loop_sound; eauto.
  - apply IHr in H as (w & st' & Hr & Hl & Hk).
    eexists w, _. split; [|split; [apply lang_grp, Hl | exact Hk]].
    exact Hr.
  - destruct (grp st) as [g|]; [|discriminate].
    destruct (read_text ignorecase g st) as [st'|] eqn:Hrt; [|discriminate].
    apply read_text_advances in Hrt as [w Hw].
    exists w, st'. split; [exact Hw|]. split; [constructor | exact H].
  - destruct (xorb _ _); [|discriminate].
    exists "", st. split; [reflexivity|]. split; [constructor | exact H].
Qed.

Lemma match_here_sound (r : regex) (before : option ascii) (s : string)
    (m : mobj) :
  match_here ignorecase r before s = Some m ->
  lang ignorecase r (group0 m) /\ exists post, s = group0 m +:+ post.
Proof.
  unfold match_here. intros H.
  destruct (rmatch ignorecase r _ Some) as [st'|] eqn:Hm; [|discriminate].
  inversion H; subst m. cbn [group0].
  apply rmatch_sound in Hm as (w & st1 & Hr & Hl & Hk).
  inversion Hk; subst st1. cbn [rest] in Hr.
  rewrite Hr, consumed_append. split; [exact Hl|]. now exists (rest st').
Qed.

(** What [re.search] finds is a text of the pattern and a part of the
    string searched. *)
Lemma search_sound (r : regex) (s : string) (m : mobj) :
  search ignorecase r s = Some m ->
  lang ignorecase r (group0 m) /\
  exists pre post, s = pre +:+ (group0 m +:+ post).
Proof.
  unfold search. generalize (@None ascii) as before.
  induction s as [|c s IH]; intros before H; simpl in H.
  - destruct (match_here ignorecase r before "") as [m0|] eqn:Hm;
      [|discriminate].
    inversion H; subst m0. apply match_here_sound in Hm as [Hl [post Hp]].
    split; [exact Hl|]. now exists "", post.
  - destruct (match_here ignorecase r before (String c s)) as [m0|] eqn:Hm.
    + inversion H; subst m0. apply match_here_sound in Hm as [Hl [post Hp]].
      split; [exact Hl|]. now exists "", post.
    + apply IH in H as [Hl (pre & post & Hp)]. split; [exact Hl|].
      exists (String c pre), post. simpl. now rewrite Hp.
Qed.

(** A repeated class reads characters of the class, as many as its
    bounds allow. *)
Lemma lang_rep_cls (p : ascii -> bool) (w : string) :
  forall lo hi,
    lang ignorecase (Rep lo hi (Cls p)) w ->
    lo <= String.length w /\
    (forall h, hi = Some h -> String.length w <= h) /\
    all_chars (cls_matches ignorecase p) w = true.
Proof.
  induction w as [|x w IH]; intros lo hi H; inversion H; subst.
  - split; [simpl; lia|]. split; [intros; simpl; lia | reflexivity].
  - match goal with
    | Hc : lang _ (Cls p) _ |- _ => inversion Hc; subst
    end.
    discriminate.
  - match goal with
    | Hc : lang _ (Cls p) ?w1, He : ?w1 +:+ _ = String x w |- _ =>
        inversion Hc; subst; simpl in He; inversion He; subst
    end.
    match goal with
    | Hr : lang _ (Rep _ _ _) w |- _ => apply IH in Hr as (Hlo & Hhi & Hall)
    end.
    split; [simpl; lia|]. split.
    + intros h ->. destruct h as [|h]; [congruence|].
      simpl. specialize (Hhi h eq_refl). lia.
    + simpl. rewrite Hall. now rewrite andb_true_r.
Qed.

End MatcherSoundness.

(** ** The Extractor's patterns *)

Section ExtractorPatterns.
Import PyStr Re DataExtractor.

#[local] Arguments append !s1 s2 : simpl nomatch.

Ltac invert_lang :=
  repeat match goal with
         | H : lang _ (Seq _ _) _ |- _ => inversion H; subst; clear H
         | H : lang _ (Chr _) _ |- _ => inversion H; subst; clear H
         | H : lang _ Wordb _ |- _ => inversion H; subst; clear H
         | H : lang _ Eps _ |- _ => inversion H; subst; clear H
         end.

Lemma chr_matches_exact (c x : ascii) : chr_matches false c x = true -> x = c.
Proof. unfold chr_matches. intros H. apply Ascii.eqb_eq in H. congruence. Qed.

Lemma count_chars_append (p : ascii -> bool) (a b : string) :
  count_chars p (a +:+ b) = count_chars p a + count_chars p b.
Proof. induction a as [|c a IH]; simpl; [reflexivity | rewrite IH; lia]. Qed.

Lemma count_chars_all (p q : ascii -> bool) (w : string) :
  (forall c, p c = true -> q c = true) ->
  all_chars p w = true -> count_chars q w = String.length w.
Proof.
  intros Hpq. induction w as [|c w IH]; simpl; [reflexivity|].
  intros H. apply andb_true_iff in H as [Hc Hw].
  rewrite (Hpq c Hc), IH by exact Hw. reflexivity.
Qed.

Lemma count_chars_none (p q : ascii -> bool) (w : string) :
  (forall c, p c = true -> q c = false) ->
  all_chars p w = true -> count_chars q w = 0.
Proof.
  intros Hpq. induction w as [|c w IH]; simpl; [reflexivity|].
  intros H. apply andb_true_iff in H as [Hc Hw].
  rewrite (Hpq c Hc), IH by exact Hw. reflexivity.
Qed.

Lemma isspace_not_digit (c : ascii) : isspace c = true -> isdigit c = false.
Proof.
  unfold isspace, isdigit, range. generalize (code c) as n. intros n H.
  change (code "0") with 48%N. change (code "9") with 57%N.
  apply orb_true_iff in H.
  apply andb_false_iff.
  destruct H as [H|H]; apply andb_true_iff in H as [_ H];
    apply N.leb_le in H; left; apply N.leb_gt; lia.
Qed.

Lemma separator_not_digit (c : ascii) : one_of "-." c = true -> isdigit c = false.
Proof.
  cbn [one_of]. rewrite orb_false_r. intros H.
  apply orb_true_iff in H as [H|H]; apply Ascii.eqb_eq in H; subst c;
    reflexivity.
Qed.

(** The shape of what the email pattern reads. *)
Lemma email_pattern_shape (w : string) :
  lang false email_pattern w ->
  exists local domain tld,
    w = local +:+ ("@" +:+ (domain +:+ ("." +:+ tld))) /\
    local <> "" /\ domain <> "" /\ 2 <= String.length tld.
Proof.
  unfold email_pattern, Plus, AtLeast. intros H. invert_lang.
  repeat match goal with
         | H : lang _ (Rep _ _ (Cls _)) _ |- _ =>
             apply lang_rep_cls in H as (? & _ & _)
         end.
  repeat match goal with
         | H : chr_matches false _ _ = true |- _ =>
             apply chr_matches_exact in H; subst
         end.
  match goal with
  | |- exists _ _ _, _ +:+ (?a +:+ (_ +:+ (?b +:+ (_ +:+ (?c +:+ _))))) = _ /\ _ =>
      exists a, b, c
  end.
  simpl. rewrite append_nil_r. split; [reflexivity|].
  repeat split; try lia.
  all: intros ->; simpl in *; lia.
Qed.

Ltac count_digits :=
  repeat match goal with
         | H : lang _ (Rep _ _ (Cls _)) _ |- _ =>
             apply lang_rep_cls in H as (? & ? & ?)
         end;
  repeat match goal with
         | H : forall h, Some ?n = Some h -> _ |- _ =>
             specialize (H n eq_refl)
         | H : forall h, None = Some h -> _ |- _ => clear H
         end;
  repeat match goal with
         | H : chr_matches false _ _ = true |- _ =>
             apply chr_matches_exact in H; subst
         end;
  repeat match goal with
         | H : all_chars (cls_matches false _) _ = true |- _ =>
             first
               [ apply (count_chars_all _ isdigit) in H;
                 [|intros c Hc; exact Hc]
               | apply (count_chars_none _ isdigit) in H;
                 [|exact separator_not_digit]
               | apply (count_chars_none _ isdigit) in H;
                 [|exact isspace_not_digit] ]
         end;
  rewrite !count_chars_append;
  repeat match goal with
         | H : count_chars isdigit _ = _ |- _ => rewrite H; clear H
         end;
  cbn [count_chars];
  repeat match goal with
         | |- context [if isdigit ?c then 1 else 0] =>
             let b := eval vm_compute in (isdigit c) in
             change (if isdigit c then 1 else 0) with (if b then 1 else 0);
             cbv iota
         end;
  lia.

(** What either phone pattern reads has ten digits. *)
Lemma phone_pattern_plain_digits (w : string) :
  lang false phone_pattern_plain w -> count_chars isdigit w = 10.
Proof.
  unfold phone_pattern_plain, Exactly, Opt. intros H. invert_lang.
  count_digits.
Qed.

Lemma phone_pattern_parens_digits (w : string) :
  lang false phone_pattern_parens w -> count_chars isdigit w = 10.
Proof.
  unfold phone_pattern_parens, Exactly, Opt, Star. intros H. invert_lang.
  count_digits.
Qed.

End ExtractorPatterns.

Section ExtractorProperties.
Import PyStr Re DataExtractor.

Lemma extract_email_sound (text e : string) :
  extract_email text = Some e ->
  lang false email_pattern e /\ exists pre post, text = pre +:+ (e +:+ post).
Proof.
  unfold extract_email. intros H.
  destruct (search false email_pattern text) as [m|] eqn:Hs; [|discriminate].
  inversion H; subst e. now apply search_sound in Hs.
Qed.

Lemma extract_email_not_empty (text e : string) :
  extract_email text = Some e -> exists x t, e = String x t.
Proof.
  intros H. apply extract_email_sound in H as [Hl _].
  apply email_pattern_shape in Hl as (local & domain & tld & -> & Hne & _).
  destruct local as [|x local]; [congruence|]. simpl. eauto.
Qed.

(** X1.  An email address that [extract_email] returns is a part of the
    text, and it is made of a non-empty local part, an at sign, a
    non-empty domain, a dot, and two characters or more. *)
Theorem extract_email_is_an_address_of_the_text (text e : string) :
  extract_email text = Some e ->
  (exists pre post, text = pre +:+ (e +:+ post)) /\
  exists local domain tld,
    e = local +:+ ("@" +:+ (domain +:+ ("." +:+ tld))) /\
    local <> "" /\ domain <> "" /\ 2 <= String.length tld.
Proof.
  intros H. apply extract_email_sound in H as [Hl Hpart].
  split; [exact Hpart | now apply email_pattern_shape].
Qed.

Lemma extract_email_is_an_address_of_the_text_witness :
  (exists pre post,
     "My name is John Doe, email john@example.com" =
     pre +:+ ("john@example.com" +:+ post)) /\
  exists local domain tld,
    "john@example.com" = local +:+ ("@" +:+ (domain +:+ ("." +:+ tld))) /\
    local <> "" /\ domain <> "" /\ 2 <= String.length tld.
Proof.
  apply (extract_email_is_an_address_of_the_text
           "My name is John Doe, email john@example.com" "john@example.com").
  vm_compute. reflexivity.
Defined.

(** X2.  A phone number that [extract_phone] returns is a part of the
    text and has exactly ten digits. *)
Theorem extract_phone_has_ten_digits (text p : string) :
  extract_phone text = Some p ->
  (exists pre post, text = pre +:+ (p +:+ post)) /\
  count_chars isdigit p = 10.
Proof.
  unfold extract_phone. cbn [first_phone_match]. intros H.
  destruct (search false phone_pattern_plain text) as [m|] eqn:Hs.
  - inversion H; subst p. apply search_sound in Hs as [Hl Hpart].
    split; [exact Hpart | now apply phone_pattern_plain_digits].
  - destruct (search false phone_pattern_parens text) as [m|] eqn:Hs2;
      [|discriminate].
    inversion H; subst p. apply search_sound in Hs2 as [Hl Hpart].
    split; [exact Hpart | now apply phone_pattern_parens_digits].
Qed.

Lemma extract_phone_has_ten_digits_witness :
  (exists pre post,
     "call (555) 123-4567 today" = pre +:+ ("(555) 123-4567" +:+ post)) /\
  count_chars isdigit "(555) 123-4567" = 10.
Proof.
  apply (extract_phone_has_ten_digits "call (555) 123-4567 today"
           "(555) 123-4567").
  vm_compute. reflexivity.
Defined.

(** X3.  On an envelope whose [errors] is a list, the Extractor's
    handler answers [extracted], with [errors] as it was, exactly when
    the email pattern matched in the content; otherwise it answers
    [extraction-incomplete] and has appended "No email address found".
    No match is lost for being empty. *)
Theorem extractor_label_follows_the_email_pattern
    (m : message) (es : list string) :
  errors m = Some es ->
  exists r,
    handle_event m = Ok r /\
    ((exists e,
        extract_email (get_content m) = Some e /\
        get_email (body r) = Some e /\
        ce_type r = "com.learning.message.extracted" /\
        errors (body r) = Some es) \/
     (extract_email (get_content m) = None /\
      get_email (body r) = None /\
      ce_type r = "com.learning.message.extraction-incomplete" /\
      errors (body r) = Some (es ++ ["No email address found"]))).
Proof.
  intros He. unfold handle_event.
  assert (Hmail : get_email (process m) = extract_email (get_content m))
    by reflexivity.
  rewrite Hmail.
  destruct (extract_email (get_content m)) as [e|] eqn:Hx.
  - destruct (extract_email_not_empty _ _ Hx) as [x [t ->]].
    cbn [truthy]. eexists. split; [reflexivity|]. left. exists (String x t).
    cbn [body ce_type]. rewrite Hmail, process_errors. auto.
  - cbn [truthy]. unfold append_error. rewrite process_errors, He.
    eexists. split; [reflexivity|]. right.
    cbn [body ce_type]. split; [reflexivity|]. split; [exact Hmail|].
    split; reflexivity.
Qed.

End ExtractorProperties.

(** ** More on the Validator *)

Section ValidatorProperties.
Import PyStr ContentValidator.

Lemma append_issues_keeps (issues : list string) :
  forall m m',
    append_issues m issues = Ok m' ->
    content m' = content m /\ message_id m' = message_id m /\
    processing_stage m' = processing_stage m /\
    validation m' = validation m /\
    extracted_data m' = extracted_data m /\
    customer_data m' = customer_data m /\ routing m' = routing m.
Proof.
  induction issues as [|issue issues IH]; intros m m' H; simpl in H.
  - inversion H; subst. repeat split.
  - unfold append_error in H. destruct (errors m) as [es|]; [|discriminate].
    apply IH in H. simpl in H. exact H.
Qed.

(** What [validate] returns on a list of errors, in full. *)
Lemma validate_exact (m : message) (es : list string) :
  errors m = Some es ->
  exists m',
    validate m = Ok m' /\
    validation m' = Some (run_checks (get_content m)) /\
    processing_stage m' = Some "validated" /\
    content m' = content m /\
    errors m' =
      Some (es ++ List.map (String.append "validation:")
                    (issues_found (run_checks (get_content m)))).
Proof.
  intros He. unfold validate.
  destruct (is_valid (run_checks (get_content m))) eqn:Hv.
  - eexists. split; [reflexivity|]. simpl.
    apply run_checks_valid_issues in Hv. rewrite Hv. simpl.
    rewrite app_nil_r. auto.
  - edestruct (append_issues_list
                 (issues_found (run_checks (get_content m)))
                 (set_processing_stage
                    (set_validation m (run_checks (get_content m)))
                    "validated") es He) as (m' & Hm' & Hes' & Hval').
    exists m'. split; [exact Hm'|].
    apply append_issues_keeps in Hm' as (Hc & _ & Hst & Hv' & _).
    rewrite Hv', Hst, Hc. auto.
Qed.

(** X4.  Running the Validator again on its own answer computes the
    same [validation], and appends every issue to [errors] a second
    time. *)
Theorem validate_twice_repeats_the_issues (m : message) (es : list string) :
  errors m = Some es ->
  exists m1 m2 v,
    validate m = Ok m1 /\ validate m1 = Ok m2 /\
    validation m1 = Some v /\ validation m2 = Some v /\
    errors m1 =
      Some (es ++ List.map (String.append "validation:") (issues_found v)) /\
    errors m2 =
      Some (es ++ List.map (String.append "validation:") (issues_found v)
               ++ List.map (String.append "validation:") (issues_found v)).
Proof.
  intros He.
  destruct (validate_exact m es He) as (m1 & H1 & Hv1 & _ & Hc1 & He1).
  destruct (validate_exact m1 _ He1) as (m2 & H2 & Hv2 & _ & _ & He2).
  assert (Hc : get_content m1 = get_content m)
    by (unfold get_content; now rewrite Hc1).
  rewrite Hc in Hv2, He2.
  exists m1, m2, (run_checks (get_content m)).
  split; [exact H1|]. split; [exact H2|]. split; [exact Hv1|].
  split; [exact Hv2|]. split; [exact He1|].
  rewrite He2, <- app_assoc. reflexivity.
Qed.

Lemma validate_twice_repeats_the_issues_witness :
  exists m1 m2,
    validate (create_payload "m-1" "short") = Ok m1 /\
    validate m1 = Ok m2 /\
    errors m2 =
      Some ["validation:Message too short (minimum 10 characters)";
            "validation:Message too short (minimum 10 characters)"].
Proof.
  destruct (validate_twice_repeats_the_issues (create_payload "m-1" "short")
              [] eq_refl) as (m1 & m2 & v & H1 & H2 & Hv1 & _ & _ & He2).
  exists m1, m2. split; [exact H1|]. split; [exact H2|].
  rewrite He2.
  assert (Hv : v = run_checks "short").
  { vm_compute in H1. inversion H1; subst m1. vm_compute in Hv1.
    inversion Hv1. vm_compute. reflexivity. }
  rewrite Hv. vm_compute. reflexivity.
Defined.

Lemma keyword_lists_lower_case :
  Forall (fun k => lower k = k) SPAM_KEYWORDS /\
  Forall (fun k => lower k = k) PROFANITY_LIST.
Proof.
  split; repeat (apply List.Forall_cons; [reflexivity|]);
    apply List.Forall_nil.
Qed.

(** X5.  The words that the spam check and the profanity check report
    are the words of their lists that occur in the text when the case of
    letters is ignored. *)
Theorem keyword_checks_ignore_case (text word : string) :
  (In word (check_spam_keywords text) <->
   In word SPAM_KEYWORDS /\ occurs_ignoring_case word text) /\
  (In word (check_profanity text) <->
   In word PROFANITY_LIST /\ occurs_ignoring_case word text).
Proof.
  destruct keyword_lists_lower_case as [Hs Hp].
  rewrite List.Forall_forall in Hs, Hp.
  unfold check_spam_keywords, check_profanity.
  rewrite !List.filter_In. split; split.
  - intros [Hin Hc]. split; [exact Hin|].
    apply contains_lower_iff; auto.
  - intros [Hin Ho]. split; [exact Hin|].
    apply contains_lower_iff; auto.
  - intros [Hin Hc]. split; [exact Hin|].
    apply contains_lower_iff; auto.
  - intros [Hin Ho]. split; [exact Hin|].
    apply contains_lower_iff; auto.
Qed.

End ValidatorProperties.

Section RepetitionCheck.
Import PyStr Re ContentValidator.

#[local] Arguments append !s1 s2 : simpl nomatch.

Lemma rep_loop_accepts fuel body hi st :
  rep_loop fuel body 0 hi st Some <> None.
Proof.
  destruct fuel as [|fuel]; simpl; [discriminate|].
  destruct hi as [[|h]|]; try discriminate;
    now destruct (body st _).
Qed.

(** One compulsory round of [\1] when group 1 is the character [c]. *)
Lemma bref_round (c : ascii) fuel lo st k :
  grp st = Some (String c "") ->
  rep_loop fuel (rmatch false Bref) (S lo) None st k =
  match fuel, rest st with
  | S fuel', String x t =>
      if Ascii.eqb c x
      then rep_loop fuel' (rmatch false Bref) lo None (advance st x t) k
      else None
  | _, _ => None
  end.
Proof.
  intros Hg. destruct fuel as [|fuel]; [reflexivity|].
  cbn [rep_loop rmatch]. rewrite Hg. cbn [read_text].
  destruct (rest st) as [|x t] eqn:Hr; [reflexivity|].
  unfold chr_matches. destruct (Ascii.eqb c x); [|reflexivity].
  cbn [advance rest String.length].
  replace (String.length t <? S (String.length t)) with true
    by (symmetry; apply Nat.ltb_lt; lia).
  cbn [Nat.pred option_map].
  now destruct (rep_loop fuel _ lo None _ k).
Qed.

Lemma bref_rounds (c : ascii) (n : nat) :
  forall st,
    grp st = Some (String c "") ->
    rep_loop (String.length (rest st)) (rmatch false Bref) n None st Some
      <> None <->
    exists post, rest st = repeat_char c n +:+ post.
Proof.
  induction n as [|n IH]; intros st Hg.
  - split; [intros _; now exists (rest st) | intros _; apply rep_loop_accepts].
  - rewrite (bref_round c) by exact Hg.
    destruct (rest st) as [|x t] eqn:Hr; cbn [String.length].
    + split; [congruence | intros [post H]; discriminate].
    + destruct (Ascii.eqb c x) eqn:E.
      * apply Ascii.eqb_eq in E. subst x.
        specialize (IH (advance st c t) Hg). cbn [advance rest] in IH.
        rewrite IH. simpl. split.
        -- intros [post ->]. now exists post.
        -- intros [post H]. inversion H. now exists post.
      * split; [congruence|]. intros [post H]. simpl in H. inversion H.
        subst x. now rewrite Ascii.eqb_refl in E.
Qed.

(** Where the repetition pattern matches: at five equal characters that
    are not newlines. *)
Lemma repeat_pattern_here (before : option ascii) (s : string) :
  match_here false repeat_pattern before s <> None <->
  exists c post,
    c <> "010"%char /\ s = repeat_char c 5 +:+ post.
Proof.
  unfold match_here, repeat_pattern, AtLeast. cbn [rmatch rest].
  destruct s as [|c t].
  - split; [congruence | intros (c & post & _ & H); discriminate].
  - unfold cls_matches. cbn [advance prev rest grp].
    change (String c t) with (String c "" +:+ t) at 1.
    rewrite consumed_append.
    destruct (Ascii.eqb c "010") eqn:E; cbn [negb].
    + apply Ascii.eqb_eq in E. subst c. split; [congruence|].
      intros (c & post & Hc & H). simpl in H. inversion H. congruence.
    + assert (Hne : c <> "010"%char)
        by (intros ->; now rewrite Ascii.eqb_refl in E).
      pose proof (bref_rounds c 4
                    {| prev := Some c; rest := t; grp := Some (String c "") |}
                    eq_refl) as Hr.
      cbn [rest rmatch] in Hr. split.
      * intros H.
        destruct (rep_loop (String.length t) _ 4 None _ Some)
          eqn:Hl; [|congruence].
        destruct Hr as [Hr _]. destruct Hr as [post Hp]; [congruence|].
        exists c, post. split; [exact Hne|]. simpl. now rewrite Hp.
      * intros (c' & post & _ & H). simpl in H. injection H as Hc Ht.
        subst c'. destruct Hr as [_ Hr].
        destruct (rep_loop (String.length t) _ 4 None _ Some)
          eqn:Hl; [intros Habs; discriminate Habs|].
        exfalso. apply Hr; [|reflexivity]. exists post. exact Ht.
Qed.

(** [re.search] with a pattern that does not look at what precedes. *)
Lemma search_from_iff (r : regex) (P : string -> Prop) :
  (forall before suf, match_here false r before suf <> None <-> P suf) ->
  forall s before,
    search_from false r before s <> None <->
    exists pre suf, s = pre +:+ suf /\ P suf.
Proof.
  intros HP. induction s as [|c s IH]; intros before; simpl.
  - destruct (match_here false r before "") eqn:Hm.
    + split; [intros _ | discriminate].
      exists "", "". split; [reflexivity|]. apply (HP before). congruence.
    + split; [congruence|]. intros (pre & suf & Hs & Hsuf).
      destruct pre; [|discriminate]. simpl in Hs. subst suf.
      apply (HP before) in Hsuf. congruence.
  - destruct (match_here false r before (String c s)) eqn:Hm.
    + split; [intros _ | discriminate].
      exists "", (String c s). split; [reflexivity|].
      apply (HP before). congruence.
    + rewrite IH. split.
      * intros (pre & suf & -> & Hsuf). now exists (String c pre), suf.
      * intros (pre & suf & Hs & Hsuf). destruct pre as [|x pre].
        -- simpl in Hs. subst suf. apply (HP before) in Hsuf. congruence.
        -- simpl in Hs. inversion Hs. now exists pre, suf.
Qed.

(** X6.  The repetition check raises its issue exactly when the text
    has five equal characters in a row that are not newlines. *)
Theorem repetition_check_iff (text : string) :
  check_repeated_characters text =
    Some "Excessive character repetition detected" <->
  exists pre c post,
    c <> "010"%char /\ text = pre +:+ (repeat_char c 5 +:+ post).
Proof.
  unfold check_repeated_characters, search.
  pose proof (search_from_iff repeat_pattern
                (fun suf => exists c post,
                   c <> "010"%char /\ suf = repeat_char c 5 +:+ post)
                repeat_pattern_here text None) as H.
  destruct (search_from false repeat_pattern None text).
  - split; [intros _ | reflexivity].
    destruct H as [H _]. destruct H as (pre & suf & -> & c & post & Hc & ->);
      [discriminate|].
    now exists pre, c, post.
  - split; [discriminate|]. intros (pre & c & post & Hc & ->).
    exfalso. apply H; [|reflexivity].
    exists pre, (repeat_char c 5 +:+ post). split; [reflexivity|].
    now exists c, post.
Qed.

End RepetitionCheck.

(** ** More on the stages *)

Section StageProperties.
Import PyStr.

Lemma enrich_fields (database : string -> DatabaseEnricher.query_result)
    (m m' : message) :
  DatabaseEnricher.enrich database m = Ok m' ->
  content m' = content m /\ message_id m' = message_id m /\
  validation m' = validation m /\ extracted_data m' = extracted_data m /\
  routing m' = routing m /\
  processing_stage m' =
    (if truthy (DataExtractor.get_email m) then Some "enriched"
     else processing_stage m).
Proof.
  unfold DatabaseEnricher.enrich, DatabaseEnricher.enrich_try,
    DatabaseEnricher.lookup_customer, append_error, DataExtractor.get_email.
  destruct (truthy _); cbn [negb].
  - destruct (database _) as [row | | detail]; simpl.
    + intros H. inversion H; subst. simpl. auto 10.
    + destruct (errors m) as [es|] eqn:He; simpl.
      * intros H. inversion H; subst. simpl. auto 10.
      * rewrite He. discriminate.
    + destruct (errors m) as [es|] eqn:He; [|discriminate].
      intros H. inversion H; subst. simpl. auto 10.
  - destruct (errors m) as [es|] eqn:He; [|discriminate].
    intros H. inversion H; subst. simpl. auto 10.
Qed.

Lemma route_fields (m m' : message) :
  MessageRouter.route m = Ok m' ->
  content m' = content m /\ message_id m' = message_id m /\
  errors m' = errors m /\
  validation m' = validation m /\ extracted_data m' = extracted_data m /\
  customer_data m' = customer_data m /\
  processing_stage m' = Some "routed".
Proof.
  unfold MessageRouter.route.
  destruct (MessageRouter.determine_route _) as [[[c conf] why]|];
    [|discriminate].
  intros H. inversion H; subst. simpl. auto 10.
Qed.

Lemma validate_fields (m m' : message) :
  ContentValidator.validate m = Ok m' ->
  content m' = content m /\ message_id m' = message_id m /\
  extracted_data m' = extracted_data m /\
  customer_data m' = customer_data m /\ routing m' = routing m /\
  processing_stage m' = Some "validated".
Proof.
  unfold ContentValidator.validate.
  destruct (is_valid _).
  - intros H. inversion H; subst. simpl. auto 10.
  - intros H. apply append_issues_keeps in H. simpl in H.
    destruct H as (? & ? & ? & ? & ? & ? & ?). auto 10.
Qed.

Lemma extractor_fields (m : message) (r : reply) :
  DataExtractor.handle_event m = Ok r ->
  content (body r) = content m /\ message_id (body r) = message_id m /\
  validation (body r) = validation m /\
  customer_data (body r) = customer_data m /\
  routing (body r) = routing m /\
  processing_stage (body r) = Some "extracted".
Proof.
  unfold DataExtractor.handle_event.
  destruct (truthy _).
  - intros H. inversion H; subst. simpl. auto 10.
  - unfold append_error. rewrite process_errors.
    destruct (errors m) as [es|]; [|discriminate].
    intros H. inversion H; subst. simpl. auto 10.
Qed.

(** X7.  Whatever a handler answers, the envelope of the answer has the
    content and the identifier it received, and the result fields of
    the other stages as they were: a stage writes only its own. *)
Theorem stages_write_only_their_own_field
    (database : string -> DatabaseEnricher.query_result)
    (s : stage) (m : message) (r : reply) :
  handle database s m = Ok r ->
  content (body r) = content m /\
  message_id (body r) = message_id m /\
  (s <> Validator -> validation (body r) = validation m) /\
  (s <> Extractor -> extracted_data (body r) = extracted_data m) /\
  (s <> Enricher -> customer_data (body r) = customer_data m) /\
  (s <> Router -> routing (body r) = routing m).
Proof.
  intros H. destruct s; simpl in H.
  - unfold ContentValidator.handle_event in H.
    destruct (ContentValidator.validate m) as [m'|] eqn:Hv; [|discriminate].
    inversion H; subst. simpl.
    apply validate_fields in Hv as (? & ? & ? & ? & ? & _).
    repeat split; auto; congruence.
  - apply extractor_fields in H as (? & ? & ? & ? & ? & _).
    repeat split; auto; congruence.
  - unfold DatabaseEnricher.handle_event in H.
    destruct (DatabaseEnricher.enrich database m) as [m'|] eqn:Hen;
      [|discriminate].
    inversion H; subst. simpl.
    apply enrich_fields in Hen as (? & ? & ? & ? & ? & _).
    repeat split; auto; congruence.
  - unfold MessageRouter.handle_event in H.
    destruct (MessageRouter.route m) as [m'|] eqn:Hr; [|discriminate].
    inversion H; subst. simpl.
    apply route_fields in Hr as (? & ? & ? & ? & ? & ? & _).
    repeat split; auto; congruence.
Qed.

Lemma stages_write_only_their_own_field_witness :
  exists r,
    handle (fun _ => DatabaseEnricher.NoRow) Router
      (DataExtractor.process (create_payload "m-1" "my invoice is wrong"))
      = Ok r /\
    content (body r) = Some "my invoice is wrong" /\
    extracted_data (body r) =
      extracted_data
        (DataExtractor.process (create_payload "m-1" "my invoice is wrong")).
Proof.
  destruct (handle_total (fun _ => DatabaseEnricher.NoRow) Router
              (DataExtractor.process
                 (create_payload "m-1" "my invoice is wrong")) [] eq_refl)
    as [r Hr].
  exists r. split; [exact Hr|].
  destruct (stages_write_only_their_own_field _ _ _ _ Hr)
    as (Hc & _ & _ & Hx & _).
  split; [exact Hc|]. apply Hx. discriminate.
Defined.

(** X8.  Whatever a handler answers, [processing_stage] is the name of
    the stage, with one exception: the Enricher leaves it as it was
    when the envelope carries no email address. *)
Theorem processing_stage_after_a_stage
    (database : string -> DatabaseEnricher.query_result)
    (s : stage) (m : message) (r : reply) :
  handle database s m = Ok r ->
  processing_stage (body r) =
    match s with
    | Validator => Some "validated"
    | Extractor => Some "extracted"
    | Enricher =>
        if truthy (DataExtractor.get_email m) then Some "enriched"
        else processing_stage m
    | Router => Some "routed"
    end.
Proof.
  intros H. destruct s; simpl in H.
  - unfold ContentValidator.handle_event in H.
    destruct (ContentValidator.validate m) as [m'|] eqn:Hv; [|discriminate].
    inversion H; subst. simpl. now apply validate_fields in Hv.
  - now apply extractor_fields in H.
  - unfold DatabaseEnricher.handle_event in H.
    destruct (DatabaseEnricher.enrich database m) as [m'|] eqn:Hen;
      [|discriminate].
    inversion H; subst. simpl. now apply enrich_fields in Hen.
  - unfold MessageRouter.handle_event in H.
    destruct (MessageRouter.route m) as [m'|] eqn:Hr; [|discriminate].
    inversion H; subst. simpl. now apply route_fields in Hr.
Qed.

Lemma processing_stage_after_a_stage_witness :
  exists r,
    handle (fun _ => DatabaseEnricher.NoRow) Enricher
      (DataExtractor.process (create_payload "m-1" "no address here"))
      = Ok r /\
    processing_stage (body r) = Some "extracted".
Proof.
  destruct (handle_total (fun _ => DatabaseEnricher.NoRow) Enricher
              (DataExtractor.process
                 (create_payload "m-1" "no address here")) [] eq_refl)
    as [r Hr].
  exists r. split; [exact Hr|].
  rewrite (processing_stage_after_a_stage _ _ _ _ Hr).
  vm_compute. reflexivity.
Defined.

End StageProperties.

Section EdgeProperties.
Import PyStr.

(** X9.  On an envelope without the key [errors], the Router answers as
    usual; the Validator answers only when every check passes, the
    Extractor only when it found an email address, the Enricher only
    when the customer is in the database; in every other case the
    handler ends with [KeyError: 'errors']. *)
Theorem handlers_without_errors_key
    (database : string -> DatabaseEnricher.query_result) (m : message) :
  errors m = None ->
  (exists r, MessageRouter.handle_event m = Ok r) /\
  ContentValidator.handle_event m =
    (if is_valid (ContentValidator.run_checks (get_content m))
     then Ok {| body :=
                  set_processing_stage
                    (set_validation m
                       (ContentValidator.run_checks (get_content m)))
                    "validated";
                ce_type := "com.learning.message.validated" |}
     else Raise (KeyError "errors")) /\
  DataExtractor.handle_event m =
    (match DataExtractor.extract_email (get_content m) with
     | Some _ =>
         Ok {| body := DataExtractor.process m;
               ce_type := "com.learning.message.extracted" |}
     | None => Raise (KeyError "errors")
     end) /\
  match DataExtractor.get_email m with
  | Some (String c e) =>
      match database (String c e) with
      | DatabaseEnricher.Row _ =>
          exists r,
            DatabaseEnricher.handle_event database m = Ok r /\
            ce_type r = "com.learning.message.enriched"
      | _ =>
          DatabaseEnricher.handle_event database m = Raise (KeyError "errors")
      end
  | _ => DatabaseEnricher.handle_event database m = Raise (KeyError "errors")
  end.
Proof.
  intros He. split; [|split; [|split]].
  - unfold MessageRouter.handle_event.
    destruct (route_returns m) as (m' & info & -> & _). eauto.
  - unfold ContentValidator.handle_event, ContentValidator.validate.
    destruct (is_valid _) eqn:Hv.
    + unfold error_count. cbn [errors set_processing_stage set_validation].
      rewrite He. reflexivity.
    + destruct (issues_found (ContentValidator.run_checks (get_content m)))
        as [|issue issues] eqn:Hi.
      * apply run_checks_valid_issues in Hi. congruence.
      * cbn [ContentValidator.append_issues].
        rewrite append_error_absent by exact He. reflexivity.
  - unfold DataExtractor.handle_event.
    assert (Hmail : DataExtractor.get_email (DataExtractor.process m) =
                    DataExtractor.extract_email (get_content m))
      by reflexivity.
    rewrite Hmail.
    destruct (DataExtractor.extract_email (get_content m)) as [e|] eqn:Hx.
    + destruct (extract_email_not_empty _ _ Hx) as [x [t ->]]. reflexivity.
    + cbn [truthy]. rewrite append_error_absent; [reflexivity|].
      now rewrite process_errors.
  - unfold DatabaseEnricher.handle_event, DatabaseEnricher.enrich,
      DatabaseEnricher.enrich_try, DatabaseEnricher.lookup_customer,
      append_error, DataExtractor.get_email.
    destruct (match extracted_data m with Some d => email d | None => None end)
      as [[|c e]|]; cbn [truthy negb default]; rewrite ?He; try reflexivity.
    unfold id. destruct (database (String c e)) as [row | | detail]; simpl;
      rewrite ?He; cbn [errors set_customer_data]; rewrite ?He;
      try reflexivity.
    eexists. split; [reflexivity|]. unfold error_count. simpl.
    now rewrite He.
Qed.

Lemma handlers_without_errors_key_witness :
  ContentValidator.handle_event
    {| message_id := None; content := Some "short"; processing_stage := None;
       errors := None; validation := None; extracted_data := None;
       customer_data := None; routing := None |}
  = Raise (KeyError "errors").
Proof.
  destruct (handlers_without_errors_key (fun _ => DatabaseEnricher.NoRow)
              {| message_id := None; content := Some "short";
                 processing_stage := None; errors := None;
                 validation := None; extracted_data := None;
                 customer_data := None; routing := None |} eq_refl)
    as (_ & Hv & _).
  rewrite Hv. vm_compute. reflexivity.
Defined.

(** X10.  An envelope without the key [content] is handled as an empty
    text: the Validator fails it as too short and nothing else, the
    Extractor finds no email address, the Router answers [unknown]. *)
Theorem envelope_without_content (m : message) (es : list string) :
  content m = None ->
  errors m = Some es ->
  (exists r,
     ContentValidator.handle_event m = Ok r /\
     ce_type r = "com.learning.message.validation-failed" /\
     errors (body r) =
       Some (es ++ ["validation:Message too short (minimum 10 characters)"])) /\
  (exists r,
     DataExtractor.handle_event m = Ok r /\
     ce_type r = "com.learning.message.extraction-incomplete" /\
     errors (body r) = Some (es ++ ["No email address found"])) /\
  (exists r,
     MessageRouter.handle_event m = Ok r /\
     ce_type r = "com.learning.message.routed.unknown" /\
     errors (body r) = Some es).
Proof.
  intros Hc He.
  assert (Hg : get_content m = "") by (unfold get_content; now rewrite Hc).
  split; [|split].
  - unfold ContentValidator.handle_event.
    destruct (validate_exact m es He) as (m' & -> & _ & _ & _ & He').
    rewrite Hg in He'.
    assert (Hrc : ContentValidator.run_checks "" =
                  {| is_valid := false; checks_performed := 6;
                     issues_found :=
                       ["Message too short (minimum 10 characters)"] |})
      by (vm_compute; reflexivity).
    rewrite Hrc in He'. cbn [issues_found List.map] in He'.
    eexists. split; [reflexivity|]. cbn [body ce_type].
    unfold error_count. rewrite He, He'.
    split; [|reflexivity]. rewrite length_app. cbn [length].
    replace (length es <? length es + 1) with true; [reflexivity|].
    symmetry. apply Nat.ltb_lt. lia.
  - unfold DataExtractor.handle_event.
    change (DataExtractor.get_email (DataExtractor.process m))
      with (DataExtractor.extract_email (get_content m)).
    rewrite Hg.
    change (DataExtractor.extract_email "") with (@None string).
    cbn [truthy]. unfold append_error. rewrite process_errors, He.
    eexists. split; [reflexivity|]. split; reflexivity.
  - unfold MessageRouter.handle_event, MessageRouter.route. rewrite Hg.
    change (MessageRouter.determine_route
              (MessageRouter.calculate_route_scores ""))
      with (@Ok (string * Q * string)
              ("unknown", 0%Q, "No keywords matched")).
    eexists. split; [reflexivity|]. cbn. rewrite He. auto.
Qed.

End EdgeProperties.

Section EnricherProperties.
Import PyStr DatabaseEnricher.

(** X11.  On an envelope whose [errors] is a list, [enrich] returns,
    and the entry it appends names what happened: no email address in
    the envelope, no customer with this address, or a fault of the
    database with its text; in these three cases the customer is marked
    unknown.  When the database has the customer, nothing is appended
    and [customer_data] is the dict of [lookup_customer]. *)
Theorem enrich_names_the_cause
    (database : string -> query_result) (m : message) (es : list string) :
  errors m = Some es ->
  exists m',
    enrich database m = Ok m' /\
    match DataExtractor.get_email m with
    | Some (String c e) =>
        match database (String c e) with
        | Row result =>
            errors m' = Some es /\
            exists known,
              lookup_customer database (String c e) = Ok (Some known) /\
              is_known_customer known = true /\
              customer_data m' = Some known
        | NoRow =>
            errors m' =
              Some (es ++ ["enrichment:customer-not-found:" +:+ String c e]) /\
            customer_data m' = Some unknown_customer
        | Fault detail =>
            errors m' = Some (es ++ ["enrichment:database-error:" +:+ detail]) /\
            customer_data m' = Some unknown_customer
        end
    | _ =>
        errors m' = Some (es ++ ["enrichment:no-email"]) /\
        customer_data m' = Some unknown_customer
    end.
Proof.
  intros He.
  unfold enrich, enrich_try, lookup_customer, append_error,
    DataExtractor.get_email.
  destruct (match extracted_data m with Some d => email d | None => None end)
    as [[|c e]|]; cbn [truthy negb default]; rewrite ?He.
  - eexists. split; [reflexivity|]. simpl. auto.
  - unfold id. destruct (database (String c e)) as [row | | detail]; simpl;
      rewrite ?He; cbn [errors set_customer_data]; rewrite ?He;
      (eexists; split; [reflexivity|]); simpl; eauto.
  - eexists. split; [reflexivity|]. simpl. auto.
Qed.

Lemma enrich_names_the_cause_witness :
  exists m',
    enrich (fun _ => Fault "connection refused")
      (DataExtractor.process (create_payload "m-1" "I am at ann@example.org"))
      = Ok m' /\
    errors m' = Some ["enrichment:database-error:connection refused"].
Proof.
  destruct (enrich_names_the_cause (fun _ => Fault "connection refused")
              (DataExtractor.process
                 (create_payload "m-1" "I am at ann@example.org"))
              [] eq_refl) as (m' & Hm' & Hcase).
  exists m'. split; [exact Hm'|].
  vm_compute in Hcase. destruct Hcase as [Hes _]. exact Hes.
Defined.

(** X12.  The Enricher's handler asks the database about the email
    address of the envelope and about nothing else: two databases that
    agree on this address give the same answer, and without an address
    every database does. *)
Theorem enricher_reads_only_the_email
    (db1 db2 : string -> query_result) (m : message) :
  (forall e, DataExtractor.get_email m = Some e -> db1 e = db2 e) ->
  handle_event db1 m = handle_event db2 m.
Proof.
  intros Hdb.
  unfold handle_event, enrich, enrich_try, lookup_customer.
  unfold DataExtractor.get_email in Hdb.
  destruct (match extracted_data m with Some d => email d | None => None end)
    as [[|c e]|]; cbn [truthy negb default]; try reflexivity.
  unfold id. now rewrite (Hdb (String c e) eq_refl).
Qed.

Lemma enricher_reads_only_the_email_witness :
  handle_event (fun _ => NoRow)
    (DataExtractor.process (create_payload "m-1" "I am at ann@example.org")) =
  handle_event
    (fun e => if String.eqb e "ann@example.org" then NoRow else Fault "down")
    (DataExtractor.process (create_payload "m-1" "I am at ann@example.org")).
Proof.
  apply (enricher_reads_only_the_email (fun _ => NoRow)
           (fun e => if String.eqb e "ann@example.org" then NoRow
                     else Fault "down")).
  intros e He. vm_compute in He. inversion He; subst e. reflexivity.
Defined.

End EnricherProperties.

Section RerunProperties.
Import PyStr.

(** X13.  The Extractor and the Router give the same envelope when they
    are run on their own answer: [process (process m)] is [process m],
    and [route] returns an envelope that [route] returns unchanged. *)
Theorem extractor_and_router_are_idempotent (m : message) :
  DataExtractor.process (DataExtractor.process m) = DataExtractor.process m /\
  exists m',
    MessageRouter.route m = Ok m' /\ MessageRouter.route m' = Ok m'.
Proof.
  split; [reflexivity|].
  destruct (route_returns m) as (m' & info & Hr & _).
  exists m'. split; [exact Hr|].
  unfold MessageRouter.route in *.
  destruct (MessageRouter.determine_route
              (MessageRouter.calculate_route_scores (get_content m)))
    as [[[c conf] why]|] eqn:Hd; [|discriminate].
  inversion Hr; subst m'.
  change (get_content (set_processing_stage _ _)) with (get_content m).
  rewrite Hd. reflexivity.
Qed.

End RerunProperties.

Section RouterProperties.
Import PyStr MessageRouter.

Lemma count_matches_zero_iff (kws : list string) (text : string) :
  Forall (fun k => lower k = k) kws ->
  count_matches kws (lower text) = 0 <->
  forall k, In k kws -> ~ occurs_ignoring_case k text.
Proof.
  intros Hlow. unfold count_matches.
  induction kws as [|k kws IH]; simpl.
  - split; [intros _ k [] | reflexivity].
  - apply List.Forall_cons_iff in Hlow as [Hk Hlow].
    specialize (IH Hlow).
    destruct (contains k (lower text)) eqn:Hc.
    + split; [discriminate|]. intros H. exfalso.
      apply (H k); [now left|]. now apply contains_lower_iff.
    + rewrite IH. split.
      * intros H k' [<-|Hin]; [|now apply H].
        intros Ho. apply contains_lower_iff in Ho; [congruence | exact Hk].
      * intros H k' Hin. apply H. now right.
Qed.

Lemma score_entry_positive (n : nat) :
  (0 < inject_Z (Z.of_nat n) * 1)%Q <-> n <> 0.
Proof.
  unfold Qlt. simpl. lia.
Qed.

(** The entries of the table of scores, rule by rule. *)
Lemma scores_entries (text : string) (e : string * score_data) :
  In e (calculate_route_scores text) <->
  exists name config,
    In (name, config) routing_rules /\
    e = (name,
         {| score :=
              inject_Z (Z.of_nat (count_matches (keywords config) (lower text)))
              * weight config;
            matches := count_matches (keywords config) (lower text) |}).
Proof.
  unfold calculate_route_scores, score_rules. rewrite List.in_map_iff. split.
  - intros ([name config] & <- & Hin). now exists name, config.
  - intros (name & config & Hin & ->). now exists (name, config).
Qed.

Lemma rules_have_weight_one (name : string) (config : rule) :
  In (name, config) routing_rules ->
  weight config = 1%Q /\ name <> "unknown".
Proof.
  unfold routing_rules. simpl.
  intros [H | [H | [H | []]]]; inversion H; subst; split;
    (reflexivity || discriminate).
Qed.

(** X14.  The Router answers the category [unknown] exactly when no
    keyword of any of its three lists occurs in the content, the case of
    letters being ignored. *)
Theorem router_answers_unknown_iff_no_keyword (m : message) :
  exists m' info,
    route m = Ok m' /\ routing m' = Some info /\
    (category info = "unknown" <->
     forall name config k,
       In (name, config) routing_rules -> In k (keywords config) ->
       ~ occurs_ignoring_case k (get_content m)).
Proof.
  pose proof routing_rules_keywords as Hkw.
  rewrite List.Forall_forall in Hkw.
  unfold route.
  destruct (determine_route_selects (calculate_route_scores (get_content m)))
    as [[Hall Hd] | (before & c & d & after & Hs & Hpos & _ & _ & Hd)].
  - apply NoDup_ListNoDup, (bool_decide_unpack _). vm_compute. reflexivity.
  - rewrite Hd. eexists _, _. split; [reflexivity|].
    split; [reflexivity|]. cbn [category]. split; [intros _ | reflexivity].
    intros name config k Hrule Hk.
    destruct (Hkw _ Hrule) as [_ Hlow]. cbn [snd] in Hlow.
    apply (count_matches_zero_iff _ _ Hlow); [|exact Hk].
    rewrite List.Forall_forall in Hall.
    specialize (Hall _ (proj2 (scores_entries _ _)
                          (ex_intro _ name (ex_intro _ config
                             (conj Hrule eq_refl))))).
    cbn [snd score] in Hall.
    destruct (rules_have_weight_one _ _ Hrule) as [Hw _]. rewrite Hw in Hall.
    destruct (count_matches (keywords config) (lower (get_content m)))
      as [|n] eqn:Hn; [reflexivity|].
    exfalso. apply (Qlt_not_le _ _ (proj2 (score_entry_positive (S n))
                                      (Nat.neq_succ_0 n))).
    exact Hall.
  - rewrite Hd. eexists _, _. split; [reflexivity|].
    split; [reflexivity|]. cbn [category].
    assert (Hin : In (c, d) (calculate_route_scores (get_content m))).
    { rewrite Hs. apply in_or_app. right. now left. }
    apply scores_entries in Hin as (name & config & Hrule & Heq).
    inversion Heq; subst c d. cbn [score] in Hpos.
    destruct (rules_have_weight_one _ _ Hrule) as [Hw Hname].
    split; [intros Habs; congruence|].
    intros Hnone. exfalso.
    rewrite Hw in Hpos. apply score_entry_positive in Hpos. apply Hpos.
    destruct (Hkw _ Hrule) as [_ Hlow]. cbn [snd] in Hlow.
    apply (count_matches_zero_iff _ _ Hlow).
    intros k Hk. now apply (Hnone name config).
Qed.

End RouterProperties.

Section MonitorProperties.
Import PyStr EventMonitor.

(** X15.  What the monitor shows for the answer of a stage: every answer
    of the Validator is shown as [validated], also a failed validation;
    every answer of the Router as [routed]; an answer of the Extractor
    as [extracted] when it found an email address and as [unknown] when
    it did not; an answer of the Enricher as [enriched] when it added no
    error and as [failed] when it did. *)
Theorem monitor_stage_of_a_reply
    (database : string -> DatabaseEnricher.query_result)
    (s : stage) (m : message) (r : reply) :
  handle database s m = Ok r ->
  stage_of_header (Some (ce_type r)) =
    match s with
    | Validator => "validated"
    | Extractor =>
        if error_count m <? error_count (body r) then "unknown"
        else "extracted"
    | Enricher =>
        if error_count m <? error_count (body r) then "failed"
        else "enriched"
    | Router => "routed"
    end.
Proof.
  intros H. destruct s; simpl in H.
  - unfold ContentValidator.handle_event in H.
    destruct (ContentValidator.validate m); [|discriminate].
    inversion H; subst. cbn [ce_type]. now destruct (_ <? _).
  - apply extractor_handle_cases in H
      as [[Hes ->] | (es & He & Hes & ->)]; unfold error_count.
    + rewrite Hes, Nat.ltb_irrefl. reflexivity.
    + rewrite Hes, He, length_app. cbn [length].
      replace (length es <? length es + 1) with true; [reflexivity|].
      symmetry. apply Nat.ltb_lt. lia.
  - unfold DatabaseEnricher.handle_event in H.
    destruct (DatabaseEnricher.enrich database m) as [m'|] eqn:Hen;
      [|discriminate].
    inversion H; subst. cbn [ce_type body].
    apply enrich_cases in Hen as [(es & e & He & Hes & _ & _) | [Hes Hk]].
    + replace (error_count m <? error_count m') with true; [reflexivity|].
      symmetry. apply Nat.ltb_lt. unfold error_count.
      rewrite Hes, He, length_app. simpl. lia.
    + unfold error_count. rewrite Hes, Nat.ltb_irrefl, Hk. reflexivity.
  - unfold MessageRouter.handle_event in H.
    destruct (MessageRouter.route m); [|discriminate].
    inversion H; subst. cbn [ce_type].
    unfold MessageRouter.event_type_of_category.
    repeat destruct (String.eqb _ _); reflexivity.
Qed.

Lemma monitor_stage_of_a_reply_witness :
  exists r,
    handle (fun _ => DatabaseEnricher.NoRow) Validator
      (create_payload "m-1" "short") = Ok r /\
    ce_type r = "com.learning.message.validation-failed" /\
    stage_of_header (Some (ce_type r)) = "validated".
Proof.
  destruct (handle_total (fun _ => DatabaseEnricher.NoRow) Validator
              (create_payload "m-1" "short") [] eq_refl) as [r Hr].
  exists r. split; [exact Hr|].
  split; [vm_compute in Hr; inversion Hr; reflexivity|].
  exact (monitor_stage_of_a_reply _ Validator _ r Hr).
Defined.

End MonitorProperties.

(** ** More on the announcer *)

Section AnnouncerProperties.
Import EventAnnouncer.

Lemma is_full_false qs q :
  is_full qs q = false -> length (contents qs q) < QUEUE_MAXSIZE.
Proof. unfold is_full. intros H. now apply Nat.leb_gt in H. Qed.

Lemma contents_same (qs qs' : gmap nat (list string)) q :
  qs' !! q = qs !! q -> contents qs' q = contents qs q.
Proof. unfold contents. now intros ->. Qed.

Lemma announce_keeps_bounded (s s' : state) (msg : string) :
  wf s -> bounded s -> announce s msg = Ok s' -> wf s' /\ bounded s'.
Proof.
  intros Hwf Hb H.
  destruct (announce_sheds s msg Hwf) as (s1 & H1 & Hwf1 & _ & _ & Hput & Hsame).
  rewrite H in H1. inversion H1; subst s1. split; [exact Hwf1|].
  intros q.
  destruct (decide (q ∈ listeners s)) as [Hin|Hout].
  - destruct (is_full (queues s) q) eqn:Hfull.
    + rewrite (contents_same (queues s)) by (apply Hsame; now right).
      apply Hb.
    + rewrite (Hput q Hin Hfull), length_app. simpl.
      apply is_full_false in Hfull. lia.
  - rewrite (contents_same (queues s)) by (apply Hsame; now left).
    apply Hb.
Qed.

Lemma get_and_yield_keeps_bounded (s : state) (q : nat) :
  bounded s -> bounded (get_and_yield s q).1.1.
Proof.
  intros Hb. unfold get_and_yield.
  destruct (contents (queues s) q) as [|msg waiting] eqn:Hc; [exact Hb|].
  intros x. cbn.
  destruct (decide (q = x)) as [->|Hne].
  - rewrite contents_insert_eq. specialize (Hb x). rewrite Hc in Hb.
    simpl in Hb. lia.
  - rewrite contents_insert_ne by exact Hne. apply Hb.
Qed.

Lemma register_keeps_bounded (s : state) (q : nat) :
  bounded s -> bounded (register s q).
Proof.
  intros Hb x. unfold register. cbn.
  destruct (decide (q = x)) as [->|Hne].
  - rewrite contents_insert_eq. simpl. lia.
  - rewrite contents_insert_ne by exact Hne. apply Hb.
Qed.

Lemma next_keeps_bounded (s : state) (g : generator) :
  bounded s -> bounded (next s g).1.1.
Proof.
  intros Hb.
  assert (Hreplay : forall pending, bounded (replay s pending).1.1).
  { intros [|msg pending]; cbn [replay]; [|exact Hb].
    apply get_and_yield_keeps_bounded, register_keeps_bounded, Hb. }
  destruct g; cbn [next]; auto using get_and_yield_keeps_bounded.
Qed.

Lemma perform_keeps (s s' : state) (a : action) :
  wf s -> bounded s -> perform s a = Ok s' -> wf s' /\ bounded s'.
Proof.
  intros Hwf Hb H. destruct a as [msg | g | g]; cbn [perform] in H.
  - eapply announce_keeps_bounded; eauto.
  - inversion H; subst s'. split; [now apply wf_next|].
    now apply next_keeps_bounded.
  - split; [eapply wf_close; eauto|].
    destruct g; cbn [close] in H; try (inversion H; subst s'; exact Hb).
    destruct (list_remove q (listeners s)); [|discriminate].
    inversion H; subst s'. exact Hb.
Qed.

(** X16.  Whatever is announced, and whatever generators of [listen]
    are advanced or closed, in any order, from the start of the
    service: no queue is registered twice, the history has at most 200
    items and no queue has more than 20. *)
Theorem announcer_keeps_its_bounds (actions : list action) :
  wf (perform_all init actions) /\ bounded (perform_all init actions).
Proof.
  assert (Hgen : forall s, wf s -> bounded s ->
                           wf (perform_all s actions) /\
                           bounded (perform_all s actions)).
  { induction actions as [|a actions IH]; intros s Hwf Hb; simpl; [auto|].
    destruct (perform s a) as [s'|e] eqn:Hp; [|now apply IH].
    destruct (perform_keeps s s' a Hwf Hb Hp). now apply IH. }
  apply Hgen; [apply wf_init|].
  intros q. unfold init, contents. cbn. rewrite lookup_empty. simpl. lia.
Qed.

(** A registered queue with room for them gets the items announced, in
    their order. *)
Lemma announce_all_delivers (q : nat) (msgs : list string) :
  forall s,
    wf s -> q ∈ listeners s ->
    length (contents (queues s) q) + length msgs <= QUEUE_MAXSIZE ->
    exists s1,
      announce_all s msgs = Ok s1 /\ wf s1 /\ q ∈ listeners s1 /\
      contents (queues s1) q = contents (queues s) q ++ msgs.
Proof.
  induction msgs as [|msg msgs IH]; intros s Hwf Hq Hlen; simpl.
  - exists s. rewrite app_nil_r. auto.
  - simpl in Hlen.
    assert (Hroom : is_full (queues s) q = false).
    { unfold is_full. apply Nat.leb_gt. lia. }
    destruct (announce_sheds s msg Hwf)
      as (s1 & -> & Hwf1 & _ & Hl1 & Hput & _).
    assert (Hq1 : q ∈ listeners s1).
    { rewrite Hl1. apply list_elem_of_filter. split; [exact Hroom | exact Hq]. }
    specialize (Hput q Hq Hroom).
    destruct (IH s1 Hwf1 Hq1) as (s2 & -> & Hwf2 & Hq2 & Hc2).
    { rewrite Hput, length_app. simpl. lia. }
    exists s2. split; [reflexivity|]. split; [exact Hwf2|].
    split; [exact Hq2|]. rewrite Hc2, Hput, <- app_assoc. reflexivity.
Qed.

(** A generator inside [while True] yields what waits in its queue,
    oldest first, and empties it. *)
Lemma run_next_listening (q : nat) (waiting : list string) :
  forall s,
    contents (queues s) q = waiting ->
    exists s',
      run_next (length waiting) s (Listening q) =
        (s', Listening q, List.map Yield waiting) /\
      contents (queues s') q = [] /\
      listeners s' = listeners s /\ history s' = history s.
Proof.
  induction waiting as [|msg waiting IH]; intros s Hc.
  - exists s. simpl. auto.
  - cbn [length run_next next]. unfold get_and_yield. rewrite Hc.
    destruct (IH {| listeners := listeners s; history := history s;
                    queues := <[q := waiting]> (queues s) |})
      as (s' & Hrun & Hempty & Hl & Hh).
    { cbn [queues]. apply contents_insert_eq. }
    rewrite Hrun. exists s'. auto.
Qed.

(** X17.  A registered listener whose queue has room for them receives
    the items announced in the order of their announcement: after the
    items [msgs] are announced, its generator yields what was waiting
    and then [msgs], item by item, and then waits. *)
Theorem listener_receives_in_order (s : state) (q : nat) (msgs : list string) :
  wf s ->
  q ∈ listeners s ->
  length (contents (queues s) q) + length msgs <= QUEUE_MAXSIZE ->
  exists s1 s2,
    announce_all s msgs = Ok s1 /\
    run_next (length (contents (queues s) q ++ msgs)) s1 (Listening q) =
      (s2, Listening q, List.map Yield (contents (queues s) q ++ msgs)) /\
    next s2 (Listening q) = (s2, Listening q, Waiting).
Proof.
  intros Hwf Hq Hlen.
  destruct (announce_all_delivers q msgs s Hwf Hq Hlen)
    as (s1 & Hs1 & _ & _ & Hc1).
  destruct (run_next_listening q _ s1 Hc1) as (s2 & Hrun & Hempty & _).
  exists s1, s2. split; [exact Hs1|]. split; [exact Hrun|].
  cbn [next]. unfold get_and_yield. now rewrite Hempty.
Qed.

End AnnouncerProperties.

Section ListenProperties.
Import EventAnnouncer.

(** X18.  An item announced while a generator of [listen] is still
    replaying its snapshot is lost for this generator: the item enters
    the history, the generator goes on to yield the rest of the snapshot
    and nothing else, and the queue it then registers is empty. *)
Theorem item_announced_during_replay_is_missed
    (s : state) (x : string) (pending : list string) (msg : string) :
  wf s ->
  history s = x :: pending ->
  exists s1 older,
    next s Created = (s, Replaying pending, Yield x) /\
    announce s msg = Ok s1 /\
    history s1 = older ++ [msg] /\
    run_next (length pending) s1 (Replaying pending) =
      (s1, Replaying [], List.map Yield pending) /\
    next s1 (Replaying []) =
      (register s1 (new_queue s1), Listening (new_queue s1), Waiting).
Proof.
  intros Hwf Hh.
  destruct (announce_sheds s msg Hwf) as (s1 & Hs1 & _ & Hh1 & _).
  rewrite deque_append_cases in Hh1 by apply Hwf.
  exists s1, (if length (history s) =? HISTORY_MAXLEN
              then tail (history s) else history s).
  split; [cbn [next]; rewrite Hh; reflexivity|].
  split; [exact Hs1|].
  split; [rewrite Hh1; now destruct (_ =? _)|].
  split; [apply run_next_replaying|].
  cbn [next replay]. unfold get_and_yield, register. cbn [queues].
  now rewrite contents_insert_eq.
Qed.

Lemma filter_other_than (q : nat) (l : list nat) :
  q ∉ l -> filter (fun x => x <> q) l = l.
Proof.
  induction l as [|y l IH]; intros Hq; [reflexivity|].
  apply not_elem_of_cons in Hq as [Hne Hq].
  rewrite filter_cons, (IH Hq).
  destruct (decide (y <> q)) as [_|Heq]; [reflexivity|].
  exfalso. apply Heq. congruence.
Qed.

Lemma list_remove_filter (q : nat) (l : list nat) :
  NoDup l -> q ∈ l ->
  list_remove q l = Some (filter (fun x => x <> q) l).
Proof.
  induction l as [|y l IH]; intros Hnd Hq; [inversion Hq|].
  apply NoDup_cons in Hnd as [Hy Hnd]. cbn [list_remove].
  rewrite filter_cons.
  destruct (Nat.eqb q y) eqn:E.
  - apply Nat.eqb_eq in E. subst y.
    destruct (decide (q <> q)) as [Hne|_]; [congruence|].
    now rewrite (filter_other_than q l Hy).
  - apply Nat.eqb_neq in E.
    apply elem_of_cons in Hq as [->|Hq]; [congruence|].
    rewrite (IH Hnd Hq).
    destruct (decide (y <> q)) as [_|Heq]; [reflexivity|].
    exfalso. apply Heq. congruence.
Qed.

Lemma list_remove_absent (q : nat) (l : list nat) :
  q ∉ l -> list_remove q l = None.
Proof.
  induction l as [|y l IH]; intros Hq; [reflexivity|].
  apply not_elem_of_cons in Hq as [Hne Hq]. cbn [list_remove].
  replace (Nat.eqb q y) with false by (symmetry; now apply Nat.eqb_neq).
  now rewrite (IH Hq).
Qed.

(** X19.  Closing a generator that is inside [while True] takes its
    queue, and no other, out of the listeners and leaves history and
    queues alone. *)
Theorem close_unregisters_the_listener (s : state) (q : nat) :
  wf s ->
  q ∈ listeners s ->
  close s (Listening q) =
    Ok {| listeners := filter (fun x => x <> q) (listeners s);
          history := history s; queues := queues s |}.
Proof.
  intros (Hnd & _) Hq. cbn [close].
  now rewrite (list_remove_filter q _ Hnd Hq).
Qed.

(** X20.  When [announce] has dropped a listener because its queue was
    full, closing the generator of this listener ends with the
    [ValueError] of [self.listeners.remove(q)]. *)
Theorem close_after_being_dropped_raises
    (s : state) (q : nat) (msg : string) :
  wf s ->
  q ∈ listeners s ->
  is_full (queues s) q = true ->
  exists s1,
    announce s msg = Ok s1 /\ close s1 (Listening q) = Raise ValueError.
Proof.
  intros Hwf Hq Hfull.
  destruct (announce_sheds s msg Hwf) as (s1 & Hs1 & _ & _ & Hl1 & _).
  exists s1. split; [exact Hs1|]. cbn [close].
  rewrite list_remove_absent; [reflexivity|].
  rewrite Hl1. intros Hin. apply list_elem_of_filter in Hin as [Hroom _].
  unfold has_room in Hroom. congruence.
Qed.

End ListenProperties.

(** ** The properties above at concrete inputs *)

Section MoreWitnesses.
Import PyStr EventAnnouncer.

Ltac two_listeners_wf :=
  unfold wf, two_listeners; cbn [listeners history queues];
  split; [apply (bool_decide_unpack _); vm_compute; reflexivity|];
  split; [|unfold HISTORY_MAXLEN; simpl; lia];
  let q := fresh "q" in
  let Hq := fresh "Hq" in
  intros q Hq; apply elem_of_dom;
  apply elem_of_cons in Hq as [->|Hq]; [vm_compute; eauto|];
  apply list_elem_of_singleton in Hq as ->; vm_compute; eauto.

Lemma extractor_label_follows_the_email_pattern_witness :
  exists r,
    DataExtractor.handle_event
      (create_payload "m-1" "reach me at ann@example.org") = Ok r /\
    ce_type r = "com.learning.message.extracted" /\
    errors (body r) = Some [].
Proof.
  destruct (extractor_label_follows_the_email_pattern
              (create_payload "m-1" "reach me at ann@example.org") []
              eq_refl) as (r & Hr & Hcase).
  exists r. split; [exact Hr|].
  destruct Hcase as [(e & _ & _ & Ht & Hes) | (Hx & _)]; [auto|].
  vm_compute in Hx. discriminate.
Defined.

Lemma envelope_without_content_witness :
  exists r,
    ContentValidator.handle_event
      {| message_id := Some "m-1"; content := None;
         processing_stage := Some "received"; errors := Some [];
         validation := None; extracted_data := None;
         customer_data := None; routing := None |} = Ok r /\
    ce_type r = "com.learning.message.validation-failed" /\
    errors (body r) =
      Some ["validation:Message too short (minimum 10 characters)"].
Proof.
  destruct (envelope_without_content
              {| message_id := Some "m-1"; content := None;
                 processing_stage := Some "received"; errors := Some [];
                 validation := None; extracted_data := None;
                 customer_data := None; routing := None |} []
              eq_refl eq_refl) as (Hv & _).
  exact Hv.
Defined.

Lemma listener_receives_in_order_witness :
  exists s1 s2,
    announce_all two_listeners ["e1"; "e2"] = Ok s1 /\
    run_next 3 s1 (Listening 1) =
      (s2, Listening 1, [Yield "e0"; Yield "e1"; Yield "e2"]) /\
    next s2 (Listening 1) = (s2, Listening 1, Waiting).
Proof.
  destruct (listener_receives_in_order two_listeners 1 ["e1"; "e2"])
    as (s1 & s2 & H1 & Hrun & Hwait).
  - two_listeners_wf.
  - right. left.
  - vm_compute. lia.
  - exists s1, s2. split; [exact H1|]. split; [exact Hrun | exact Hwait].
Defined.

Lemma item_announced_during_replay_is_missed_witness :
  exists s1,
    next two_listeners Created = (two_listeners, Replaying [], Yield "e0") /\
    announce two_listeners "e1" = Ok s1 /\
    next s1 (Replaying []) =
      (register s1 (new_queue s1), Listening (new_queue s1), Waiting).
Proof.
  destruct (item_announced_during_replay_is_missed two_listeners "e0" [] "e1")
    as (s1 & older & Hn & Ha & _ & _ & Hreg).
  - two_listeners_wf.
  - reflexivity.
  - exists s1. split; [exact Hn|]. split; [exact Ha | exact Hreg].
Defined.

Lemma close_unregisters_the_listener_witness :
  close two_listeners (Listening 1) =
    Ok {| listeners := [0]; history := ["e0"];
          queues := queues two_listeners |}.
Proof.
  rewrite (close_unregisters_the_listener two_listeners 1).
  - reflexivity.
  - two_listeners_wf.
  - right. left.
Defined.

Lemma close_after_being_dropped_raises_witness :
  exists s1,
    announce two_listeners "e1" = Ok s1 /\
    close s1 (Listening 0) = Raise ValueError.
Proof.
  apply (close_after_being_dropped_raises two_listeners 0 "e1").
  - two_listeners_wf.
  - left.
  - vm_compute. reflexivity.
Defined.

End MoreWitnesses.

(** ** The stages in a row *)

Section ChainProperties.
Import PyStr.

(** X21.  The payload of the producer goes through the four handlers in
    the order Validator, Extractor, Enricher, Router without any of
    them raising, whatever the content and the database.  The last
    answer has the content and the identifier of the payload, the stage
    [routed], and as [errors] the entries of the Validator, then at most
    one of the Extractor, then at most one of the Enricher. *)
Theorem chain_from_the_producer
    (database : string -> DatabaseEnricher.query_result)
    (id text : string) :
  exists r1 r2 r3 r4 a b c,
    handle database Validator (create_payload id text) = Ok r1 /\
    handle database Extractor (body r1) = Ok r2 /\
    handle database Enricher (body r2) = Ok r3 /\
    handle database Router (body r3) = Ok r4 /\
    content (body r4) = Some text /\
    message_id (body r4) = Some id /\
    processing_stage (body r4) = Some "routed" /\
    errors (body r4) = Some (a ++ b ++ c) /\
    Forall (fun e => startswith "validation:" e = true) a /\
    (b = [] \/ b = ["No email address found"]) /\
    (c = [] \/ exists e, c = [e] /\ startswith "enrichment:" e = true).
Proof.
  (* Validator *)
  destruct (validate_exact (create_payload id text) [] eq_refl)
    as (m1 & Hv & _ & _ & Hc1 & He1).
  cbn [app] in He1.
  set (a := List.map (String.append "validation:")
              (issues_found
                 (ContentValidator.run_checks
                    (get_content (create_payload id text))))) in *.
  destruct (validate_fields _ _ Hv) as (_ & Hid1 & _).
  (* Extractor *)
  destruct (extractor_handle_total m1 a He1) as [r2 H2].
  destruct (extractor_fields _ _ H2) as (Hc2 & Hid2 & _).
  assert (Hb : exists b, errors (body r2) = Some (a ++ b) /\
                         (b = [] \/ b = ["No email address found"])).
  { destruct (extractor_handle_cases _ _ H2)
      as [[Hes _] | (es & Hes0 & Hes & _)].
    - exists []. rewrite Hes, He1, app_nil_r. auto.
    - rewrite He1 in Hes0. inversion Hes0; subst es. eauto. }
  destruct Hb as (b & He2 & Hb).
  (* Enricher *)
  destruct (enrich_total database (body r2) _ He2) as [m3 H3].
  destruct (enrich_fields _ _ _ H3) as (Hc3 & Hid3 & _).
  assert (Hcc : exists c, errors m3 = Some ((a ++ b) ++ c) /\
                  (c = [] \/
                   exists e, c = [e] /\ startswith "enrichment:" e = true)).
  { destruct (enrich_cases _ _ _ H3)
      as [(es & e & Hes0 & Hes & Htag & _) | [Hes _]].
    - rewrite He2 in Hes0. inversion Hes0; subst es.
      exists [e]. split; [exact Hes|]. right. exists e. auto.
    - exists []. rewrite Hes, He2, app_nil_r. auto. }
  destruct Hcc as (c & He3 & Hc).
  (* Router *)
  destruct (route_returns m3) as (m4 & info & H4 & _).
  destruct (route_fields _ _ H4) as (Hc4 & Hid4 & He4 & _ & _ & _ & Hst4).
  eexists {| body := m1; ce_type := _ |}, r2,
          {| body := m3; ce_type := _ |}, {| body := m4; ce_type := _ |},
          a, b, c.
  split.
  { cbn [handle]. unfold ContentValidator.handle_event. rewrite Hv.
    reflexivity. }
  split; [exact H2|]. split.
  { cbn [handle body]. unfold DatabaseEnricher.handle_event. rewrite H3.
    reflexivity. }
  split.
  { cbn [handle body]. unfold MessageRouter.handle_event. rewrite H4.
    reflexivity. }
  cbn [body].
  split; [rewrite Hc4, Hc3, Hc2, Hc1; reflexivity|].
  split; [rewrite Hid4, Hid3, Hid2, Hid1; reflexivity|].
  split; [exact Hst4|].
  split; [rewrite He4, He3, <- app_assoc; reflexivity|].
  split; [|auto].
  apply List.Forall_forall. intros e Hin. subst a.
  apply List.in_map_iff in Hin as (issue & <- & _). reflexivity.
Qed.

End ChainProperties.

Section RouterConfidence.
Import PyStr MessageRouter.

Lemma count_matches_le (kws : list string) (text_lower : string) :
  count_matches kws text_lower <= length kws.
Proof. unfold count_matches. apply List.filter_length_le. Qed.

Lemma rules_have_at_most_fifteen (name : string) (config : rule) :
  In (name, config) routing_rules -> length (keywords config) <= 15.
Proof.
  unfold routing_rules. simpl.
  intros [H | [H | [H | []]]]; inversion H; subst; simpl; lia.
Qed.

(** X22.  When the Router answers a category other than [unknown], the
    category is one of finance, support and website, the confidence is
    the number of keywords of this category found in the content, a
    number from 1 to 15, and the reason reads "Matched n keywords" with
    the same number. *)
Theorem router_confidence_counts_keywords (m : message) :
  exists m' info,
    route m = Ok m' /\ routing m' = Some info /\
    (category info <> "unknown" ->
     exists config n,
       In (category info, config) routing_rules /\
       n = count_matches (keywords config) (lower (get_content m)) /\
       1 <= n <= 15 /\
       (confidence_score info == inject_Z (Z.of_nat n))%Q /\
       reason info = "Matched " +:+ str_of_nat n +:+ " keywords").
Proof.
  unfold route.
  destruct (determine_route_selects (calculate_route_scores (get_content m)))
    as [[_ Hd] | (before & c & d & after & Hs & Hpos & _ & _ & Hd)].
  - apply NoDup_ListNoDup, (bool_decide_unpack _). vm_compute. reflexivity.
  - rewrite Hd. eexists _, _. split; [reflexivity|].
    split; [reflexivity|]. cbn [category]. congruence.
  - rewrite Hd. eexists _, _. split; [reflexivity|].
    split; [reflexivity|]. cbn [category confidence_score reason].
    intros _.
    assert (Hin : In (c, d) (calculate_route_scores (get_content m))).
    { rewrite Hs. apply in_or_app. right. now left. }
    apply scores_entries in Hin as (name & config & Hrule & Heq).
    inversion Heq; subst c d. cbn [score matches] in *.
    destruct (rules_have_weight_one _ _ Hrule) as [Hw _].
    rewrite Hw in *.
    exists config, (count_matches (keywords config) (lower (get_content m))).
    split; [exact Hrule|]. split; [reflexivity|]. split.
    + apply score_entry_positive in Hpos.
      pose proof (count_matches_le (keywords config)
                    (lower (get_content m))).
      pose proof (rules_have_at_most_fifteen _ _ Hrule). lia.
    + split; [apply Qmult_1_r | reflexivity].
Qed.

End RouterConfidence.
